(** * Sharetape speech-to-text pipeline: a shallow embedding of [sharetape.py]

    The development follows the class [Sharetape]: the progress helper
    [_progress], the mono downmix at the head of [handle_speech_2_text], the
    chunked recognition loop, the transcript and subtitle assembly loop, and
    [extract_transcript] with [save_data].

    External libraries (scipy.io.wavfile, wave.open, moviepy, vosk, srt) are
    interfaces of the model: type classes whose operations the pipeline
    calls.  Floating point seconds are rationals. *)

From Stdlib Require Import ZArith QArith Qround Lia Lqa Ascii String.
From stdpp Require Import base list strings gmap sorting.

Set Warnings "-abstract-large-number".

Local Open Scope string_scope.
Local Open Scope list_scope.
Local Open Scope nat_scope.

(** ** Recognizer output *)

(** One element of the [result] list of a Vosk result: the dictionary
    [{conf, end, start, word}]. *)
Record WordEntry := mkWord {
  word : string;
  start : Q;
  end_ : Q;
  conf : Q
}.

(** A parsed result ([json.loads(res)]): the [result] key may be absent. *)
Record jres := mkRes {
  result : option (list WordEntry);
  text : string
}.

(** ** Python helpers *)

Inductive exn :=
| TypeError
| IndexError
| ZeroDivisionError
| Exception (name : string).

(** Outcome of a computation: a value, a raised exception, or the end of the
    fuel of a [while] loop. *)
Inductive res (A : Type) :=
| Ok (a : A)
| Raise (e : exn)
| OutOfFuel.
Arguments Ok {A} a.
Arguments Raise {A} e.
Arguments OutOfFuel {A}.

(** [sep.join(l)] *)
Fixpoint str_join (sep : string) (l : list string) : string :=
  match l with
  | [] => ""
  | [x] => x
  | x :: xs => x +:+ sep +:+ str_join sep xs
  end.

(** [range(start, stop, step)] for a positive step: CPython computes the
    length first and then the items [start + i * step]. *)
Definition py_range_len (start stop step : nat) : nat :=
  if start <? stop then (stop - start - 1) / step + 1 else 0.

Definition py_range (start stop step : nat) : list nat :=
  map (fun i => start + i * step) (seq 0 (py_range_len start stop step)).

(** [l[a:b]] for [0 <= a <= b]: indices are clamped to the list. *)
Definition py_slice {A} (l : list A) (a b : nat) : list A :=
  take (b - a) (drop a l).

(** [datetime.timedelta(seconds=s)]: a whole number of microseconds, the
    fraction rounded half to even. *)
Definition round_half_even (q : Q) : Z :=
  let f := Qfloor q in
  match Qcompare (q - inject_Z f) (1 # 2) with
  | Lt => f
  | Gt => (f + 1)%Z
  | Eq => if Z.even f then f else (f + 1)%Z
  end.

Definition timedelta (seconds : Q) : Z :=
  round_half_even (seconds * inject_Z 1000000).

(** ** Transcript and subtitle assembly *)

(** [srt.Subtitle(index, start, end, content)]; times in microseconds. *)
Record Subtitle := mkSub {
  sub_index : nat;
  sub_start : Z;
  sub_end : Z;
  sub_content : string
}.

Definition WORDS_PER_LINE : nat := 14.

(** The accumulators of the assembly loop. *)
Record asm_state := mkAsm {
  subs : list Subtitle;
  total_lines : list string;
  total_words : list WordEntry
}.

(** [line[0]] and [line[-1]] *)
Definition first_item {A} (l : list A) : res A :=
  match head l with Some x => Ok x | None => Raise IndexError end.

Definition last_item {A} (l : list A) : res A :=
  match last l with Some x => Ok x | None => Raise IndexError end.

(** The [srt.Subtitle(...)] expression of the inner loop. *)
Definition make_subtitle (index : nat) (line : list WordEntry) : res Subtitle :=
  match first_item line with
  | Ok w0 =>
      match last_item line with
      | Ok w1 =>
          Ok {| sub_index := index;
                sub_content := str_join " " (map word line);
                sub_start := timedelta (start w0);
                sub_end := timedelta (end_ w1) |}
      | Raise e => Raise e
      | OutOfFuel => OutOfFuel
      end
  | Raise e => Raise e
  | OutOfFuel => OutOfFuel
  end.

(** Body of [for j in range(0, len(words), WORDS_PER_LINE)]. *)
Definition line_step (words : list WordEntry) (st : asm_state) (j : nat)
  : res asm_state :=
  let line := py_slice words j (j + WORDS_PER_LINE) in
  match make_subtitle (length (subs st)) line with
  | Ok s =>
      Ok {| subs := subs st ++ [s];
            total_lines := total_lines st ++ [sub_content s];
            total_words := total_words st |}
  | Raise e => Raise e
  | OutOfFuel => OutOfFuel
  end.

(** A [for] loop whose body may raise. *)
Fixpoint for_each {A S} (body : S -> A -> res S) (l : list A) (st : S) : res S :=
  match l with
  | [] => Ok st
  | x :: xs =>
      match body st x with
      | Ok st' => for_each body xs st'
      | Raise e => Raise e
      | OutOfFuel => OutOfFuel
      end
  end.

(** Body of [for res in results]. *)
Definition record_step (st : asm_state) (r : jres) : res asm_state :=
  match result r with
  | None => Ok st
  | Some words =>
      let st1 := {| subs := subs st;
                    total_lines := total_lines st;
                    total_words := total_words st ++ words |} in
      for_each (line_step words)
               (py_range 0 (length words) WORDS_PER_LINE) st1
  end.

Definition assemble_from (st : asm_state) (results : list jres) : res asm_state :=
  for_each record_step results st.

Definition assemble (results : list jres) : res asm_state :=
  assemble_from {| subs := []; total_lines := []; total_words := [] |} results.

(** The slices the inner loop takes from one record's word list. *)
Definition windows (words : list WordEntry) : list (list WordEntry) :=
  map (fun j => py_slice words j (j + WORDS_PER_LINE))
      (py_range 0 (length words) WORDS_PER_LINE).

(** Scenario of the specification: two words, a record without [result],
    one word. *)
Definition w_hi : WordEntry := mkWord "hi" 0 (3 # 10) 1.
Definition w_there : WordEntry := mkWord "there" (3 # 10) (6 # 10) 1.
Definition w_friend : WordEntry := mkWord "friend" 1 (14 # 10) 1.

Definition scenario : list jres :=
  [ mkRes (Some [w_hi; w_there]) "hi there";
    mkRes None "";
    mkRes (Some [w_friend]) "friend" ].

(** ** Audio normalisation (head of [handle_speech_2_text]) *)

(** Integer sample types scipy's reader returns. *)
Inductive dtype := uint8 | int16 | int32 | int64.

(** Two's complement wrap-around to [bits] bits. *)
Definition wrap_signed (bits : Z) (z : Z) : Z :=
  ((z + 2 ^ (bits - 1)) mod 2 ^ bits - 2 ^ (bits - 1))%Z.

(** Conversion of an integer to a sample type, as [astype] does it. *)
Definition cast (d : dtype) (z : Z) : Z :=
  match d with
  | uint8 => (z mod 256)%Z
  | int16 => wrap_signed 16 z
  | int32 => wrap_signed 32 z
  | int64 => wrap_signed 64 z
  end.

(** A numpy array of samples: one axis (mono), or frames by channels. *)
Inductive ndarray :=
| Arr1 (d : dtype) (xs : list Z)
| Arr2 (d : dtype) (ncols : nat) (rows : list (list Z)).

Definition ndim (a : ndarray) : nat :=
  match a with Arr1 _ _ => 1 | Arr2 _ _ _ => 2 end.

Definition astype (d' : dtype) (a : ndarray) : ndarray :=
  match a with
  | Arr1 _ xs => Arr1 d' (map (cast d') xs)
  | Arr2 _ n rows => Arr2 d' n (map (map (cast d')) rows)
  end.

(** [data[:, k]] *)
Definition column (k : nat) (a : ndarray) : res ndarray :=
  match a with
  | Arr1 _ _ => Raise IndexError
  | Arr2 d n rows =>
      if k <? n then Ok (Arr1 d (map (fun r => nth k r 0%Z) rows))
      else Raise IndexError
  end.

(** [a + b] on two vectors of one sample type: the sum wraps in that type. *)
Definition np_add (a b : ndarray) : res ndarray :=
  match a, b with
  | Arr1 d xs, Arr1 _ ys =>
      if length xs =? length ys
      then Ok (Arr1 d (zip_with (fun x y => cast d (x + y)%Z) xs ys))
      else Raise (Exception "ValueError")
  | _, _ => Raise (Exception "ValueError")
  end.

(** [a // k] for a positive Python integer [k]: floor division. *)
Definition np_floordiv (a : ndarray) (k : Z) : ndarray :=
  match a with
  | Arr1 d xs => Arr1 d (map (fun x => cast d (x / k)%Z) xs)
  | Arr2 d n rows => Arr2 d n (map (map (fun x => cast d (x / k)%Z)) rows)
  end.

(** The stereo branch, from the two selected columns. *)
Definition downmix (c0 c1 : ndarray) : res ndarray :=
  let left_channel := astype int32 c0 in
  let right_channel := astype int32 c1 in
  match np_add left_channel right_channel with
  | Ok sum => Ok (astype int16 (np_floordiv sum 2))
  | Raise e => Raise e
  | OutOfFuel => OutOfFuel
  end.

(** The mono conversion: [if getattr(data, "ndim", 1) == 1: ... else: ...]. *)
Definition to_mono (data : ndarray) : res ndarray :=
  if ndim data =? 1 then Ok (astype int16 data)
  else
    match column 0 data with
    | Ok c0 =>
        match column 1 data with
        | Ok c1 => downmix c0 c1
        | Raise e => Raise e
        | OutOfFuel => OutOfFuel
        end
    | Raise e => Raise e
    | OutOfFuel => OutOfFuel
    end.

(** A two-channel array from its left and right sample sequences. *)
Definition stereo (d : dtype) (L R : list Z) : ndarray :=
  Arr2 d 2 (zip_with (fun l r => [l; r]) L R).

(** Following the specification's words, [round_to_int16]: the nearest
    integer (ties to even, as Python's [round]), stored in 16 bits. *)
Definition spec_round_to_int16 (q : Q) : Z :=
  cast int16 (round_half_even q).

Definition int16_range (z : Z) : Prop := (-32768 <= z <= 32767)%Z.
Definition int32_range (z : Z) : Prop := (-2147483648 <= z <= 2147483647)%Z.

(** ** Wave streams ([wave.Wave_read]) *)

Record Wave_read := mkWave {
  nchannels : nat;
  sampwidth : nat;
  comptype : string;
  framerate : nat;
  nframes : nat;
  frames : list Byte.byte   (* the bytes after the read position *)
}.

(** [wf.readframes(n)]: at most [n] frames from the read position. *)
Definition readframes (n : nat) (wf : Wave_read) : list Byte.byte * Wave_read :=
  let k := n * (sampwidth wf * nchannels wf) in
  (take k (frames wf),
   mkWave (nchannels wf) (sampwidth wf) (comptype wf) (framerate wf)
          (nframes wf) (drop k (frames wf))).

(** The guard of [handle_speech_2_text] on the opened mono file. *)
Definition bad_format (wf : Wave_read) : bool :=
  negb (nchannels wf =? 1) || negb (sampwidth wf =? 2)
  || negb (String.eqb (comptype wf) "NONE").

(** ** External interfaces *)

(** vosk: the recognizer, with results already parsed by [json.loads]. *)
Class Recognizer (Model R : Type) := {
  KaldiRecognizer : Model -> nat -> R;
  SetWords : bool -> R -> R;
  SetPartialWords : bool -> R -> R;
  AcceptWaveform : list Byte.byte -> R -> bool * R;
  Result : R -> jres * R;
  FinalResult : R -> jres * R
}.

(** scipy.io.wavfile, wave.open and moviepy over the audio files [E]. *)
Class AudioIO (E : Type) := {
  wav_read : string -> E -> res (nat * ndarray);
  wav_write : string -> nat -> ndarray -> E -> res E;
  wave_open : string -> E -> res Wave_read;
  VideoFileClip : string -> E -> res bool;       (* the clip has an audio track *)
  write_audiofile : string -> string -> E -> res E
}.

(** [srt.compose] and the [repr] of a float in [json.dump]. *)
Class TextLib := {
  srt_compose : list Subtitle -> string;
  float_repr : Q -> string
}.

(** ** The pipeline state *)

(** Arguments of one call of the progress callback; [cb_unit] is [None] in
    the three-argument call. *)
Record cb_args := mkArgs {
  cb_desc : string;
  cb_current : nat;
  cb_total : nat;
  cb_unit : option string
}.

(** Observable calls: of the progress callback and of [AcceptWaveform]. *)
Inductive event :=
| EvProgress (a : cb_args)
| EvFeed (data : list Byte.byte).

(** [S]: the callback's own state; [E]: the audio files. *)
Record world (S E : Type) := mkWorld {
  sink : S;
  ext : E;
  files : gmap string string;   (* text files written with [open(path, "w+")] *)
  errlog : list string;         (* [logging.error] *)
  trace : list event
}.
Arguments mkWorld {S E}.
Arguments sink {S E}.
Arguments ext {S E}.
Arguments files {S E}.
Arguments errlog {S E}.
Arguments trace {S E}.

Definition callback (S : Type) : Type := cb_args -> S -> res unit * S.

Record Sharetape (Model S : Type) := mkSharetape {
  video : string;
  audio : string;
  mono_audio : string;
  transcript : string;
  words : string;
  subtitles : string;
  model : Model;
  progress_cb : option (callback S)
}.
Arguments mkSharetape {Model S}.
Arguments video {Model S}.
Arguments audio {Model S}.
Arguments mono_audio {Model S}.
Arguments transcript {Model S}.
Arguments words {Model S}.
Arguments subtitles {Model S}.
Arguments model {Model S}.
Arguments progress_cb {Model S}.

(** The second component of what [handle_speech_2_text] returns: the word
    list, or the string of the early return. *)
Inductive words_value :=
| WStr (s : string)
| WList (l : list WordEntry).

Definition chunk_frames : nat := 4000.
Arguments chunk_frames : simpl never.

(** ** The monad of the pipeline: state [world], exceptions, fuel *)

Section Pipeline.
Context {Model R S E : Type}.
Context {rec_ops : Recognizer Model R} {audio_io : AudioIO E} {text_lib : TextLib}.

Definition M (A : Type) : Type := world S E -> res A * world S E.

Definition ret {A} (a : A) : M A := fun w => (Ok a, w).

Definition bind {A B} (m : M A) (k : A -> M B) : M B :=
  fun w =>
    match m w with
    | (Ok a, w') => k a w'
    | (Raise e, w') => (Raise e, w')
    | (OutOfFuel, w') => (OutOfFuel, w')
    end.

Definition lift {A} (r : res A) : M A := fun w => (r, w).

(** [try: m except TypeError: h] *)
Definition except_TypeError {A} (m h : M A) : M A :=
  fun w =>
    match m w with
    | (Raise TypeError, w') => h w'
    | other => other
    end.

Notation "'let!' x ':=' m 'in' k" := (bind m (fun x => k))
  (at level 10, x pattern, m at level 100, k at level 200).
Notation "m ';;;' k" := (bind m (fun _ => k))
  (at level 100, k at level 200, right associativity).

(** *** Primitive effects *)

Definition set_sink (s : S) (w : world S E) : world S E :=
  mkWorld s (ext w) (files w) (errlog w) (trace w).
Definition set_ext (e : E) (w : world S E) : world S E :=
  mkWorld (sink w) e (files w) (errlog w) (trace w).
Definition emit (ev : event) (w : world S E) : world S E :=
  mkWorld (sink w) (ext w) (files w) (errlog w) (trace w ++ [ev]).

(** One call of the callback. *)
Definition call_cb (cb : callback S) (a : cb_args) : M unit :=
  fun w =>
    let '(r, s') := cb a (sink w) in
    (r, set_sink s' (emit (EvProgress a) w)).

(** [logging.error(msg)] *)
Definition logging_error (msg : string) : M unit :=
  fun w => (Ok tt, mkWorld (sink w) (ext w) (files w) (errlog w ++ [msg]) (trace w)).

(** [with open(path, "w+") as f: f.write(content)] *)
Definition write_file (path content : string) : M unit :=
  fun w => (Ok tt, mkWorld (sink w) (ext w) (<[path := content]> (files w))
                          (errlog w) (trace w)).

(** A reading call and a writing call of the audio libraries. *)
Definition ext_get {A} (f : E -> res A) : M A := fun w => (f (ext w), w).

Definition ext_do (f : E -> res E) : M unit :=
  fun w =>
    match f (ext w) with
    | Ok e' => (Ok tt, set_ext e' w)
    | Raise e => (Raise e, w)
    | OutOfFuel => (OutOfFuel, w)
    end.

(** [rec.AcceptWaveform(data)] *)
Definition feed (data : list Byte.byte) (rec : R) : M (bool * R) :=
  fun w => (Ok (AcceptWaveform data rec), emit (EvFeed data) w).

(** [a // b] on Python integers *)
Definition py_floordiv (a b : nat) : M nat :=
  if b =? 0 then lift (Raise ZeroDivisionError) else ret (a / b).

(** *** [Sharetape._progress] *)

Definition _progress (self : Sharetape Model S) (desc : string)
    (current total : nat) (unit_ : string) : M unit :=
  match progress_cb self with
  | Some cb =>
      except_TypeError
        (call_cb cb (mkArgs desc current total (Some unit_)))
        (call_cb cb (mkArgs desc current total None))
  | None => ret tt
  end.

(** *** The transcription loop *)

(** [while True: ...] of [handle_speech_2_text]; one unit of fuel per
    iteration. *)
Fixpoint transcribe_loop (fuel : nat) (self : Sharetape Model S)
    (total_frames : nat) (wf : Wave_read) (rec : R)
    (processed_frames : nat) (results : list jres) : M (R * list jres) :=
  match fuel with
  | 0 => lift OutOfFuel
  | Datatypes.S fuel' =>
      let '(data_bytes, wf) := readframes chunk_frames wf in
      match data_bytes with
      | [] => ret (rec, results)
      | _ :: _ =>
          let! (_, rec) := feed data_bytes rec in
          let! frames_read :=
            py_floordiv (length data_bytes) (sampwidth wf * nchannels wf) in
          let processed_frames :=
            Nat.min (processed_frames + frames_read) total_frames in
          _progress self "Transcribing" processed_frames total_frames "frames" ;;;
          let! (segment, rec) := feed [] rec in
          let '(rec, results) :=
            if (segment : bool)
            then let '(r, rec) := Result rec in (rec, results ++ [r])
            else (rec, results) in
          transcribe_loop fuel' self total_frames wf rec processed_frames results
      end
  end.

(** [handle_speech_2_text] from [wf = wave.open(self.mono_audio, "rb")] on. *)
Definition speech_2_text (self : Sharetape Model S) (wf : Wave_read)
  : M (string * words_value * string) :=
  if bad_format wf then
    logging_error "Audio file must be WAV format mono PCM." ;;;
    ret ("", WStr "", "")
  else
    let rec := KaldiRecognizer (model self) (framerate wf) in
    let rec := SetWords true rec in
    let rec := SetPartialWords true rec in
    let total_frames := nframes wf in
    _progress self "Transcribing" 0 total_frames "frames" ;;;
    let! (rec, results) :=
      transcribe_loop (Datatypes.S (length (frames wf))) self total_frames wf rec 0 [] in
    let '(final, rec) := FinalResult rec in
    let results := results ++ [final] in
    _progress self "Transcribing" total_frames total_frames "frames" ;;;
    let! st := lift (assemble results) in
    ret (str_join " " (total_lines st), WList (total_words st),
         srt_compose (subs st)).

(** The head of [handle_speech_2_text]: "Convert to mono". *)
Definition convert_to_mono (self : Sharetape Model S) : M unit :=
  _progress self "Preparing audio" 0 1 "steps" ;;;
  let! (sample_rate, data) := ext_get (wav_read (audio self)) in
  let! mono_data := lift (to_mono data) in
  ext_do (wav_write (mono_audio self) sample_rate mono_data) ;;;
  _progress self "Preparing audio" 1 1 "steps".

Definition handle_speech_2_text (self : Sharetape Model S)
  : M (string * words_value * string) :=
  convert_to_mono self ;;;
  let! wf := ext_get (wave_open (mono_audio self)) in
  speech_2_text self wf.

(** *** [json.dump] of the word data *)

Definition dquote : string := String "034"%char "".

Definition hex_digit (n : nat) : ascii :=
  nth n (list_ascii_of_string "0123456789abcdef") "0"%char.

(** One character under [ensure_ascii]: characters are code points below
    256. *)
Definition json_escape_char (c : ascii) : string :=
  let n := nat_of_ascii c in
  if n =? 34 then "\" +:+ dquote
  else if n =? 92 then "\\"
  else if n =? 10 then "\n"
  else if n =? 13 then "\r"
  else if n =? 9 then "\t"
  else if n =? 8 then "\b"
  else if n =? 12 then "\f"
  else if (32 <=? n) && (n <=? 126) then String c ""
  else "\u00" +:+ String (hex_digit (n / 16)) (String (hex_digit (n mod 16)) "").

Fixpoint json_escape (s : string) : string :=
  match s with
  | EmptyString => ""
  | String c s' => json_escape_char c +:+ json_escape s'
  end.

Definition json_str (s : string) : string := dquote +:+ json_escape s +:+ dquote.

Definition json_word (w : WordEntry) : string :=
  "{" +:+ json_str "conf" +:+ ": " +:+ float_repr (conf w) +:+ ", "
      +:+ json_str "end" +:+ ": " +:+ float_repr (end_ w) +:+ ", "
      +:+ json_str "start" +:+ ": " +:+ float_repr (start w) +:+ ", "
      +:+ json_str "word" +:+ ": " +:+ json_str (word w) +:+ "}".

Definition json_dumps (v : words_value) : string :=
  match v with
  | WStr s => json_str s
  | WList l => "[" +:+ str_join ", " (map json_word l) +:+ "]"
  end.

(** *** [save_data] and [extract_transcript] *)

Definition save_data (self : Sharetape Model S) (data : words_value) : M unit :=
  write_file (words self) (json_dumps data).

(** Part A of [extract_transcript]: audio from the video, if one is given. *)
Definition extract_audio (self : Sharetape Model S) : M unit :=
  if decide (video self = "") then ret tt
  else
    _progress self "Extracting audio" 0 1 "steps" ;;;
    let! has_audio := ext_get (VideoFileClip (video self)) in
    (if (has_audio : bool)
     then ext_do (write_audiofile (video self) (audio self))
     else ret tt) ;;;
    _progress self "Extracting audio" 1 1 "steps".

(** The three writes that end [extract_transcript]. *)
Definition persist (self : Sharetape Model S)
    (outputs : string * words_value * string) : M unit :=
  let '(transcript_text, word_data, subtitle) := outputs in
  write_file (transcript self) transcript_text ;;;
  save_data self word_data ;;;
  write_file (subtitles self) subtitle.

Definition extract_transcript (self : Sharetape Model S) : M unit :=
  extract_audio self ;;;
  let! outputs := handle_speech_2_text self in
  persist self outputs.

(** *** What a run shows to its environment *)

(** The [(current, total)] pairs of the "Transcribing" calls in a trace. *)
Definition report_of (ev : event) : option (nat * nat) :=
  match ev with
  | EvProgress a =>
      if String.eqb (cb_desc a) "Transcribing"
      then Some (cb_current a, cb_total a) else None
  | EvFeed _ => None
  end.

Definition transcribing_reports (tr : list event) : list (nat * nat) :=
  omap report_of tr.

(** The buffers given to [AcceptWaveform] in a trace. *)
Definition fed_chunks (tr : list event) : list (list Byte.byte) :=
  omap (fun ev => match ev with EvFeed d => Some d | EvProgress _ => None end) tr.

(** Steps that give nothing to the recognizer. *)
Definition keeps_fed {A} (m : M A) : Prop :=
  forall w, fed_chunks (trace (snd (m w))) = fed_chunks (trace w).

(** The callback of [self], if any, always returns normally. *)
Definition quiet_callback (self : Sharetape Model S) : Prop :=
  match progress_cb self with
  | Some cb => forall a s, fst (cb a s) = Ok tt
  | None => True
  end.

(** The world after the error of the format guard was logged. *)
Definition logged_format_error (w : world S E) : world S E :=
  mkWorld (sink w) (ext w) (files w)
          (errlog w ++ ["Audio file must be WAV format mono PCM."]) (trace w).

(** The world after the three artifacts of an early return were written. *)
Definition empty_artifacts (self : Sharetape Model S) (w : world S E) : world S E :=
  mkWorld (sink w) (ext w)
          (<[subtitles self := ""]>
             (<[words self := dquote +:+ dquote]>
                (<[transcript self := ""]> (files w))))
          (errlog w) (trace w).

End Pipeline.

(** ** Test doubles *)

(** A scripted recognizer: the model is the script, the state the segment
    results still to emit; a segment is complete while the script lasts. *)
Definition scripted_recognizer : Recognizer (list jres) (list jres) :=
  {| KaldiRecognizer := fun script _ => script;
     SetWords := fun _ q => q;
     SetPartialWords := fun _ q => q;
     AcceptWaveform := fun data q =>
       (match data, q with [], _ :: _ => true | _, _ => false end, q);
     Result := fun q => (hd (mkRes None "") q, tl q);
     FinalResult := fun q => (mkRes None "", q) |}.

(** Audio files of a test: what the reader returns, what [wave.open] returns,
    and the calls of the writer. *)
Record test_audio := mkTestAudio {
  source : nat * ndarray;
  opened : Wave_read;
  written : list (string * nat * ndarray)
}.

Definition test_audio_io : AudioIO test_audio :=
  {| wav_read := fun _ e => Ok (source e);
     wav_write := fun path rate data e =>
       Ok (mkTestAudio (source e) (opened e) (written e ++ [(path, rate, data)]));
     wave_open := fun _ e => Ok (opened e);
     VideoFileClip := fun _ _ => Ok true;
     write_audiofile := fun _ _ e => Ok e |}.

Definition test_text_lib : TextLib :=
  {| srt_compose := fun cues => str_join "|" (map sub_content cues);
     float_repr := fun _ => "0.0" |}.

(** Callbacks over a call counter. *)
Definition cb_counting : callback nat := fun _ n => (Ok tt, Datatypes.S n).

Definition cb_raising : callback nat :=
  fun _ n => (Raise (Exception "ValueError"), n).

Definition cb_three_args : callback nat :=
  fun a n =>
    match cb_unit a with
    | Some _ => (Raise TypeError, n)
    | None => (Ok tt, Datatypes.S n)
    end.

Definition tape (cb : option (callback nat)) : Sharetape (list jres) nat :=
  mkSharetape "" "audio.wav" "mono.wav" "transcript.txt" "words.json"
              "captions.srt" scenario cb.

(** A valid mono stream of 4500 frames, and a two-channel stream. *)
Definition mono_stream : Wave_read :=
  mkWave 1 2 "NONE" 16000 4500 (repeat Byte.x00 9000).

Definition stereo_stream : Wave_read :=
  mkWave 2 2 "NONE" 16000 2 (repeat Byte.x00 8).

Definition test_world (wf : Wave_read) : world nat test_audio :=
  mkWorld 0 (mkTestAudio (16000, Arr1 int16 [0; 0]%Z) wf []) ∅ [] [].

(** ** Functions the statements are phrased with *)

Definition no_word : WordEntry := mkWord "" 0 0 0.

(** The cue of a line at a given index. *)
Definition cue_of (index : nat) (line : list WordEntry) : Subtitle :=
  {| sub_index := index;
     sub_content := str_join " " (map word line);
     sub_start := timedelta (start (hd no_word line));
     sub_end := timedelta (end_ (List.last line no_word)) |}.

Fixpoint cues_from (i : nat) (lines : list (list WordEntry)) : list Subtitle :=
  match lines with
  | [] => []
  | l :: ls => cue_of i l :: cues_from (Datatypes.S i) ls
  end.

(** Word lists of the records that carry [result], in record order. *)
Fixpoint payloads (results : list jres) : list (list WordEntry) :=
  match results with
  | [] => []
  | r :: rs =>
      match result r with
      | Some ws => ws :: payloads rs
      | None => payloads rs
      end
  end.

(** All lines of a run: the windows of each payload, in order. *)
Definition all_lines (results : list jres) : list (list WordEntry) :=
  concat (map windows (payloads results)).

Definition ceil_div (m n : nat) : nat := (m + n - 1) / n.

Definition sum_nat (l : list nat) : nat := foldr Nat.add 0 l.

Definition line_text (line : list WordEntry) : string :=
  str_join " " (map word line).

(** The accumulators after the given lines were appended. *)
Definition add_lines (st : asm_state) (lines : list (list WordEntry)) : asm_state :=
  {| subs := subs st ++ cues_from (length (subs st)) lines;
     total_lines := total_lines st ++ map line_text lines;
     total_words := total_words st |}.

Definition add_words (st : asm_state) (ws : list WordEntry) : asm_state :=
  {| subs := subs st;
     total_lines := total_lines st;
     total_words := total_words st ++ ws |}.

Definition asm_empty : asm_state :=
  {| subs := []; total_lines := []; total_words := [] |}.

(** Two records of one word each. *)
Definition two_short_records : list jres :=
  [ mkRes (Some [w_hi]) "hi"; mkRes (Some [w_there]) "there" ].

(** Sample inputs of the normaliser. *)
Definition three_channel_frame : ndarray := Arr2 int16 3 [[1; 2; 3]]%Z.
Definition wide_mono_sample : ndarray := Arr1 int32 [70000]%Z.

(** What the stereo branch stores for one frame. *)
Definition mix_sample (l r : Z) : Z :=
  cast int16 (cast int32 (cast int32 (cast int32 l + cast int32 r) / 2)).

(** Reports with total [T] whose current values lie between [lo] and [T]
    and do not decrease. *)
Definition reports_ok (T lo : nat) (reps : list (nat * nat)) : Prop :=
  Forall (fun p => snd p = T /\ lo <= fst p <= T) reps /\
  StronglySorted le (map fst reps).

(** ** Further functions of the repository *)

(** A cue with its index moved by [k]. *)
Definition shift_index (k : nat) (c : Subtitle) : Subtitle :=
  {| sub_index := k + sub_index c;
     sub_start := sub_start c;
     sub_end := sub_end c;
     sub_content := sub_content c |}.

(** Number of frames of a sample array. *)
Definition frame_count (a : ndarray) : nat :=
  match a with
  | Arr1 _ xs => length xs
  | Arr2 _ _ rows => length rows
  end.

(** The successive reads of [n] bytes from a byte sequence, up to the first
    empty read; one unit of fuel per read. *)
Fixpoint chunked_aux (fuel n : nat) (l : list Byte.byte) : list (list Byte.byte) :=
  match fuel with
  | 0 => []
  | Datatypes.S fuel' =>
      match take n l with
      | [] => []
      | c => c :: chunked_aux fuel' n (drop n l)
      end
  end.

Definition chunked (n : nat) (l : list Byte.byte) : list (list Byte.byte) :=
  chunked_aux (Datatypes.S (length l)) n l.

(** What [json.load] may return: a value of the shape [save_data] writes,
    or any other JSON value. *)
Inductive json_value :=
| JWords (v : words_value)
| JOther (raw : string).

(** [json.load] on the text of a file. *)
Class JsonReader := {
  json_load : string -> res json_value
}.

Section Cache.
Context {Model S E : Type}.
Context {text_lib : TextLib} {json_reader : JsonReader}.

(** [with open(path, "r") as f]: the text of the file, if it exists. *)
Definition read_file (path : string) : M (S := S) (E := E) string :=
  fun w =>
    match files w !! path with
    | Some content => (Ok content, w)
    | None => (Raise (Exception "FileNotFoundError"), w)
    end.

(** [try: m except Exception: h] *)
Definition except_Exception {A} (m h : M (S := S) (E := E) A) : M A :=
  fun w =>
    match m w with
    | (Raise _, w') => h w'
    | other => other
    end.

(** [Sharetape.load_data] *)
Definition load_data (self : Sharetape Model S) : M (S := S) (E := E) json_value :=
  except_Exception
    (bind (read_file (words self)) (fun content => lift (json_load content)))
    (ret (JWords (WList []))).

(** The same object without its callback. *)
Definition without_callback (self : Sharetape Model S) : Sharetape Model S :=
  mkSharetape (video self) (audio self) (mono_audio self) (transcript self)
              (words self) (subtitles self) (model self) None.

(** Two worlds that agree on all but the callback's state and the trace. *)
Definition same_pipeline (w w' : world S E) : Prop :=
  ext w = ext w' /\ files w = files w' /\ errlog w = errlog w'.

(** Two computations that give the same outcome and keep the worlds in
    agreement. *)
Definition agree {A} (m m' : M (S := S) (E := E) A) : Prop :=
  forall w w', same_pipeline w w' ->
    fst (m w) = fst (m' w') /\ same_pipeline (snd (m w)) (snd (m' w')).

(** A computation that leaves the text files as they are. *)
Definition keeps_files {A} (m : M (S := S) (E := E) A) : Prop :=
  forall w, files (snd (m w)) = files w.

(** A property of the callback's state that a computation maintains. *)
Definition keeps_sink {A} (P : S -> Prop) (m : M (S := S) (E := E) A) : Prop :=
  forall w, P (sink w) -> P (sink (snd (m w))).

End Cache.

(** ** [main.py] *)

(** A [tqdm] bar: the fields the callback sets. *)
Record tqdm := mkTqdm {
  tq_total : nat;
  tq_desc : string;
  tq_unit : string;
  tq_n : nat
}.

Inductive tqdm_event :=
| Refresh (bar : tqdm)
| Close (bar : tqdm).

(** The closure state of the callback: the dictionary [bars], and what was
    displayed. *)
Record progress_bars := mkBars {
  bars : gmap string tqdm;
  display : list tqdm_event
}.

(** The callback [make_progress_cb] returns when tqdm is installed. *)
Definition make_progress_cb : callback progress_bars :=
  fun a s =>
    let desc := cb_desc a in
    let unit_ := default "" (cb_unit a) in
    let bar :=
      match bars s !! desc with
      | Some bar => bar
      | None => mkTqdm (cb_total a) desc (if decide (unit_ = "") then "it" else unit_) 0
      end in
    let bar := mkTqdm (tq_total bar) (tq_desc bar) (tq_unit bar) (cb_current a) in
    let bars1 := <[desc := bar]> (bars s) in
    let display1 := display s ++ [Refresh bar] in
    if cb_total a <=? cb_current a
    then (Ok tt, mkBars (delete desc bars1) (display1 ++ [Close bar]))
    else (Ok tt, mkBars bars1 display1).

(** The parsed command line. *)
Record cli_args := mkArgsCli {
  arg_video : string;
  arg_audio : string
}.

(** Truth value of a Python string. *)
Definition truthy (s : string) : bool := negb (String.eqb s "").

(** [main] up to the construction of the [Sharetape] object; [video_id] is
    the fresh uuid, [parser.error] exits. *)
Definition main_tape {Model} (args : cli_args) (video_id : string) (m : Model)
  : res (Sharetape Model progress_bars) :=
  if negb (truthy (arg_video args) || truthy (arg_audio args))
  then Raise (Exception "SystemExit")
  else if truthy (arg_video args) && truthy (arg_audio args)
  then Raise (Exception "SystemExit")
  else
    let audio :=
      if decide (arg_audio args = "") then video_id +:+ "/audio.wav"
      else arg_audio args in
    Ok (mkSharetape (arg_video args) audio
          (video_id +:+ "/mono_audio.wav")
          (video_id +:+ "/transcript.txt")
          (video_id +:+ "/words.json")
          (video_id +:+ "/captions.srt")
          m (Some make_progress_cb)).

(** ** Further test doubles *)

(** A video without audio track. *)
Definition silent_video_io : AudioIO test_audio :=
  {| wav_read := fun _ e => Ok (source e);
     wav_write := fun path rate data e =>
       Ok (mkTestAudio (source e) (opened e) (written e ++ [(path, rate, data)]));
     wave_open := fun _ e => Ok (opened e);
     VideoFileClip := fun _ _ => Ok false;
     write_audiofile := fun _ _ _ => Raise (Exception "OSError") |}.

Definition video_tape (cb : option (callback nat)) : Sharetape (list jres) nat :=
  mkSharetape "clip.mp4" "audio.wav" "mono.wav" "transcript.txt" "words.json"
              "captions.srt" scenario cb.

(** A reader that knows the text of the empty list only. *)
Definition test_json_reader : JsonReader :=
  {| json_load := fun s =>
       if String.eqb s "[]" then Ok (JWords (WList []))
       else Raise (Exception "JSONDecodeError") |}.

Definition bars_world (wf : Wave_read) : world progress_bars test_audio :=
  mkWorld (mkBars ∅ []) (mkTestAudio (16000, Arr1 int16 [0; 0]%Z) wf []) ∅ [] [].


(** A computation that, started with [P] on the callback's state, ends
    with [Q] on it whenever it returns normally. *)
Definition finishes {S E A} (P Q : S -> Prop) (m : M (S := S) (E := E) A) : Prop :=
  forall w a, P (sink w) -> fst (m w) = Ok a -> Q (sink (snd (m w))).

(** No bar is open but possibly the one of stage [d]. *)
Definition bars_only (d : string) (s : progress_bars) : Prop :=
  forall d', d' <> d -> bars s !! d' = None.

Definition no_open_bar (s : progress_bars) : Prop := bars s = ∅.

(** A tape whose recognizer script is empty. *)
Definition silent_tape : Sharetape (list jres) nat :=
  mkSharetape "" "audio.wav" "mono.wav" "transcript.txt" "words.json"
              "captions.srt" [] None.

(** The command line [--audio speech.wav] and the run directory "run". *)
Definition audio_cli : cli_args := mkArgsCli "" "speech.wav".


(** A world whose reader returns the three-channel frame. *)
Definition three_channel_world : world nat test_audio :=
  mkWorld 0 (mkTestAudio (16000, three_channel_frame) mono_stream []) ∅ [] [].


(** * Theorems *)

(** ** Assembly *)

Lemma py_range_len_0 m : py_range_len 0 m WORDS_PER_LINE = ceil_div m WORDS_PER_LINE.
Proof.
  unfold py_range_len, ceil_div, WORDS_PER_LINE.
  destruct (Nat.ltb_spec 0 m) as [Hm | Hm].
  - replace (m + 14 - 1) with ((m - 0 - 1) + 1 * 14) by lia.
    rewrite Nat.div_add by lia. lia.
  - replace m with 0 by lia. reflexivity.
Qed.

Lemma windows_nil : windows [] = [].
Proof. reflexivity. Qed.

Lemma py_range_len_step m :
  0 < m ->
  py_range_len 0 m WORDS_PER_LINE
  = Datatypes.S (py_range_len 0 (m - WORDS_PER_LINE) WORDS_PER_LINE).
Proof.
  intros Hm. rewrite !py_range_len_0. unfold ceil_div, WORDS_PER_LINE.
  destruct (Nat.le_gt_cases m 14) as [Hle | Hgt].
  - replace (m - 14) with 0 by lia. simpl (0 + 14 - 1).
    rewrite (Nat.div_small 13 14) by lia.
    assert (H1 : (m + 14 - 1) / 14 < 2) by (apply Nat.Div0.div_lt_upper_bound; lia).
    assert (H2 : 1 <= (m + 14 - 1) / 14) by (apply Nat.div_le_lower_bound; lia).
    lia.
  - replace (m + 14 - 1) with ((m - 14 + 14 - 1) + 1 * 14) by lia.
    rewrite Nat.div_add by lia. lia.
Qed.

Lemma windows_unfold ws :
  ws <> [] ->
  windows ws = take WORDS_PER_LINE ws :: windows (drop WORDS_PER_LINE ws).
Proof.
  intros Hne. unfold windows, py_range.
  assert (Hm : 0 < length ws) by (destruct ws; [done | simpl; lia]).
  rewrite (py_range_len_step _ Hm). rewrite length_drop.
  simpl seq. rewrite <- seq_shift. simpl map. f_equal.
  rewrite !map_map. apply map_ext. intros k. unfold py_slice.
  rewrite drop_drop. f_equal; lia.
Qed.

Lemma windows_ind (P : list WordEntry -> Prop) :
  P [] ->
  (forall ws, ws <> [] -> P (drop WORDS_PER_LINE ws) -> P ws) ->
  forall ws, P ws.
Proof.
  intros H0 Hstep ws.
  remember (length ws) as n eqn:Hn. revert ws Hn.
  induction n as [n IH] using lt_wf_ind. intros ws Hn.
  destruct ws as [| w ws']; [exact H0 |].
  apply Hstep; [done |].
  apply (IH (length (drop WORDS_PER_LINE (w :: ws')))); [| reflexivity].
  subst n. rewrite length_drop. unfold WORDS_PER_LINE. simpl. lia.
Qed.

Lemma windows_concat ws : concat (windows ws) = ws.
Proof.
  induction ws as [| ws Hne IH] using windows_ind; [reflexivity |].
  rewrite windows_unfold by done. simpl. rewrite IH. apply take_drop.
Qed.

Lemma windows_nonempty ws : Forall (fun l => l <> []) (windows ws).
Proof.
  induction ws as [| ws Hne IH] using windows_ind; [constructor |].
  rewrite windows_unfold by done. constructor; [| exact IH].
  destruct ws; [done | discriminate].
Qed.

Lemma windows_length ws : length (windows ws) = ceil_div (length ws) WORDS_PER_LINE.
Proof.
  unfold windows, py_range. rewrite !length_map, length_seq. apply py_range_len_0.
Qed.

Lemma last_default (w : WordEntry) l d : last (w :: l) = Some (List.last (w :: l) d).
Proof.
  revert w. induction l as [| x l IH]; intros w; [reflexivity |].
  change (last (x :: l) = Some (List.last (x :: l) d)). apply IH.
Qed.

Lemma make_subtitle_ok i line :
  line <> [] -> make_subtitle i line = Ok (cue_of i line).
Proof.
  destruct line as [| w l]; [done | intros _].
  unfold make_subtitle, first_item, last_item, cue_of.
  rewrite (last_default w l no_word). reflexivity.
Qed.

Lemma cues_from_app i a b :
  cues_from i (a ++ b) = cues_from i a ++ cues_from (i + length a) b.
Proof.
  revert i. induction a as [| x a IH]; intros i; simpl.
  - f_equal. lia.
  - rewrite IH. do 3 f_equal. lia.
Qed.

Lemma cues_from_length i lines : length (cues_from i lines) = length lines.
Proof. revert i. induction lines; intros; simpl; auto. Qed.

Lemma cues_from_index i lines :
  map sub_index (cues_from i lines) = seq i (length lines).
Proof. revert i. induction lines as [| l ls IH]; intros; simpl; [done |]. by rewrite IH. Qed.

Lemma cues_from_content i lines :
  map sub_content (cues_from i lines) = map line_text lines.
Proof. revert i. induction lines as [| l ls IH]; intros; simpl; [done |]. by rewrite IH. Qed.

Lemma add_lines_nil st : add_lines st [] = st.
Proof. destruct st. unfold add_lines. simpl. by rewrite !app_nil_r. Qed.

Lemma add_lines_app st a b : add_lines (add_lines st a) b = add_lines st (a ++ b).
Proof.
  unfold add_lines. simpl. rewrite cues_from_app, map_app, !app_assoc.
  by rewrite length_app, cues_from_length.
Qed.

Lemma line_step_ok ws st j :
  j < length ws ->
  line_step ws st j
  = Ok (add_lines st [py_slice ws j (j + WORDS_PER_LINE)]).
Proof.
  intros Hj. unfold line_step.
  rewrite make_subtitle_ok; [reflexivity |].
  unfold py_slice, WORDS_PER_LINE. intros Hnil.
  apply (f_equal length) in Hnil. rewrite length_take, length_drop in Hnil.
  simpl in Hnil. lia.
Qed.

Lemma lines_loop_ok ws js st :
  Forall (fun j => j < length ws) js ->
  for_each (line_step ws) js st
  = Ok (add_lines st (map (fun j => py_slice ws j (j + WORDS_PER_LINE)) js)).
Proof.
  intros Hjs. revert st. induction Hjs as [| j js Hj _ IH]; intros st; simpl.
  - by rewrite add_lines_nil.
  - rewrite line_step_ok by done. rewrite IH. by rewrite add_lines_app.
Qed.

Lemma py_range_bound m :
  Forall (fun j => j < m) (py_range 0 m WORDS_PER_LINE).
Proof.
  unfold py_range. apply Forall_forall. intros j Hj.
  apply list_elem_of_In, in_map_iff in Hj. destruct Hj as (k & <- & Hk).
  apply in_seq in Hk. unfold py_range_len, WORDS_PER_LINE in *.
  destruct (Nat.ltb_spec 0 m) as [Hm | Hm]; [| lia].
  assert (k <= (m - 0 - 1) / 14) by lia.
  assert (14 * ((m - 0 - 1) / 14) <= m - 0 - 1) by (apply Nat.Div0.mul_div_le).
  nia.
Qed.

Lemma record_step_ok st r :
  record_step st r
  = Ok (match result r with
        | Some ws => add_lines (add_words st ws) (windows ws)
        | None => st
        end).
Proof.
  unfold record_step. destruct (result r) as [ws |]; [| reflexivity].
  apply (lines_loop_ok ws _ (add_words st ws)), py_range_bound.
Qed.

Lemma add_words_lines st ws lines :
  add_words (add_lines st lines) ws = add_lines (add_words st ws) lines.
Proof. reflexivity. Qed.

Lemma add_words_app st a b : add_words (add_words st a) b = add_words st (a ++ b).
Proof. unfold add_words. simpl. by rewrite app_assoc. Qed.

Lemma add_words_nil st : add_words st [] = st.
Proof. destruct st. unfold add_words. simpl. by rewrite app_nil_r. Qed.

(** The assembly loop never raises; its accumulators are the flattened
    payloads and the cues of the windows of each payload. *)
Lemma assemble_from_ok st results :
  assemble_from st results
  = Ok (add_lines (add_words st (concat (payloads results))) (all_lines results)).
Proof.
  unfold assemble_from, all_lines. revert st.
  induction results as [| r rs IH]; intros st; simpl.
  - by rewrite add_words_nil, add_lines_nil.
  - rewrite record_step_ok. destruct (result r) as [ws |]; rewrite IH; [| done].
    simpl. rewrite add_words_lines, add_words_app, add_lines_app. done.
Qed.

Lemma assemble_ok results :
  assemble results
  = Ok {| subs := cues_from 0 (all_lines results);
          total_lines := map line_text (all_lines results);
          total_words := concat (payloads results) |}.
Proof. unfold assemble. fold asm_empty. by rewrite assemble_from_ok. Qed.

Lemma scenario_assembled :
  assemble scenario =
  Ok {| subs := [ mkSub 0 0 600000 "hi there"; mkSub 1 1000000 1400000 "friend" ];
        total_lines := ["hi there"; "friend"];
        total_words := [w_hi; w_there; w_friend] |}.
Proof. vm_compute. reflexivity. Qed.

(** *** Window sizes *)

Lemma windows_lengths ws :
  map length (windows ws)
  = replicate (length ws / WORDS_PER_LINE) WORDS_PER_LINE
    ++ (if length ws mod WORDS_PER_LINE =? 0 then []
        else [length ws mod WORDS_PER_LINE]).
Proof.
  induction ws as [| ws Hne IH] using windows_ind; [reflexivity |].
  rewrite windows_unfold by done. simpl map. rewrite IH.
  rewrite length_take, length_drop. unfold WORDS_PER_LINE.
  destruct (Nat.lt_ge_cases (length ws) 14) as [Hlt | Hge].
  - replace (length ws - 14) with 0 by lia.
    rewrite (Nat.div_small (length ws)), (Nat.mod_small (length ws)) by lia.
    assert (length ws <> 0) by (destruct ws; [done | simpl; lia]).
    destruct (Nat.eqb_spec (length ws) 0); [lia |].
    rewrite Nat.Div0.div_0_l, Nat.Div0.mod_0_l.
    rewrite (Nat.min_r 14 (length ws)) by lia. reflexivity.
  - assert (Hd : length ws / 14 = Datatypes.S ((length ws - 14) / 14)).
    { replace (length ws) with ((length ws - 14) + 1 * 14) at 1 by lia.
      rewrite Nat.div_add by lia. lia. }
    assert (Hm : length ws mod 14 = (length ws - 14) mod 14).
    { replace (length ws) with ((length ws - 14) + 1 * 14) at 1 by lia.
      apply Nat.Div0.mod_add. }
    rewrite Hd, Hm, replicate_S.
    rewrite (Nat.min_l 14 (length ws)) by lia. reflexivity.
Qed.

(** *** Cue start times *)

Lemma round_half_even_mono x y :
  (x <= y)%Q -> (round_half_even x <= round_half_even y)%Z.
Proof.
  intros Hxy. unfold round_half_even.
  pose proof (Qfloor_resp_le x y Hxy) as Hf.
  destruct (Z.eq_dec (Qfloor x) (Qfloor y)) as [Heq | Hne].
  - rewrite Heq.
    destruct (Qcompare_spec (x - inject_Z (Qfloor y)) (1 # 2)) as [H1 | H1 | H1];
      destruct (Qcompare_spec (y - inject_Z (Qfloor y)) (1 # 2)) as [H2 | H2 | H2];
      try destruct (Z.even (Qfloor y)); try lia; exfalso; lra.
  - destruct (Qcompare (x - inject_Z (Qfloor x)) (1 # 2));
      destruct (Qcompare (y - inject_Z (Qfloor y)) (1 # 2));
      try destruct (Z.even (Qfloor x)); try destruct (Z.even (Qfloor y)); lia.
Qed.

Lemma timedelta_mono x y : (x <= y)%Q -> (timedelta x <= timedelta y)%Z.
Proof.
  intros Hxy. unfold timedelta. apply round_half_even_mono.
  apply Qmult_le_compat_r; [exact Hxy | discriminate].
Qed.

Lemma cues_from_start i lines :
  map sub_start (cues_from i lines)
  = map (fun l => timedelta (start (hd no_word l))) lines.
Proof. revert i. induction lines as [| l ls IH]; intros; simpl; [done |]. by rewrite IH. Qed.

Lemma heads_sublist ws : map (hd no_word) (windows ws) `sublist_of` ws.
Proof.
  induction ws as [| ws Hne IH] using windows_ind; [constructor |].
  rewrite windows_unfold by done. destruct ws as [| w ws']; [done |].
  simpl map at 1. change (hd no_word (take WORDS_PER_LINE (w :: ws'))) with w.
  apply sublist_skip. etrans; [exact IH |].
  change (drop WORDS_PER_LINE (w :: ws')) with (drop 13 ws'). apply sublist_drop.
Qed.

Lemma heads_sublist_all pl :
  map (hd no_word) (concat (map windows pl)) `sublist_of` concat pl.
Proof.
  induction pl as [| ws pl IH]; simpl; [constructor |].
  rewrite map_app. apply sublist_app; [apply heads_sublist | exact IH].
Qed.

Lemma StronglySorted_sublist {A} (Rel : A -> A -> Prop) l k :
  l `sublist_of` k -> StronglySorted Rel k -> StronglySorted Rel l.
Proof.
  induction 1 as [| x l k Hlk IH | x l k Hlk IH]; intros Hk.
  - constructor.
  - apply StronglySorted_inv in Hk. destruct Hk as [Hk Hx].
    constructor; [auto |].
    apply Forall_forall. intros y Hy. rewrite Forall_forall in Hx.
    apply Hx. by eapply elem_of_sublist.
  - apply StronglySorted_inv in Hk. tauto.
Qed.

Lemma StronglySorted_map_inv {A B} (f : A -> B) (Rel : B -> B -> Prop) l :
  StronglySorted Rel (map f l) -> StronglySorted (fun a b => Rel (f a) (f b)) l.
Proof.
  induction l as [| x l IH]; simpl; intros H; [constructor |].
  apply StronglySorted_inv in H. destruct H as [Hl Hx].
  constructor; [auto |]. apply (proj1 (Forall_map f (Rel (f x)) l)). exact Hx.
Qed.

Lemma StronglySorted_map_mono {A B} (f : A -> B)
    (RA : A -> A -> Prop) (RB : B -> B -> Prop) l :
  (forall a b, RA a b -> RB (f a) (f b)) ->
  StronglySorted RA l -> StronglySorted RB (map f l).
Proof.
  intros Hmono. induction 1 as [| x l Hl IH Hx]; simpl; constructor; [done |].
  apply (proj2 (Forall_map f (RB (f x)) l)). eapply Forall_impl; [exact Hx | auto].
Qed.

Lemma Qle_transitive : Transitive Qle.
Proof. intros x y z. apply Qle_trans. Qed.

(** *** Claims on the assembly *)

(** C1, as stated, fails: two records of one word each give a flattened
    sequence of M = 2 words and two lines, not ceil(2/14) = 1. *)
Lemma line_count_of_flattened_fails :
  exists st,
    assemble two_short_records = Ok st /\
    length (total_words st) = 2 /\
    length (total_lines st) = 2 /\
    length (subs st) = 2 /\
    length (total_lines st) <> ceil_div (length (total_words st)) WORDS_PER_LINE.
Proof.
  eexists. split; [vm_compute; reflexivity |]. vm_compute. repeat split; lia.
Qed.

(** C1, amended: windows are taken per record.  Assembly succeeds; its
    lines are the windows of each record's word list, in order; a word list
    of m words gives ceil(m/14) windows, all of 14 words but a last one of
    m mod 14 words when 14 does not divide m, none empty; the number of
    lines is the sum of ceil(m/14) over the records carrying [result]. *)
Theorem line_windowing_per_record (results : list jres) :
  exists st,
    assemble results = Ok st /\
    total_lines st = map line_text (all_lines results) /\
    map sub_content (subs st) = total_lines st /\
    length (total_lines st)
    = sum_nat (map (fun ws => ceil_div (length ws) WORDS_PER_LINE) (payloads results)) /\
    forall ws : list WordEntry,
      concat (windows ws) = ws /\
      length (windows ws) = ceil_div (length ws) WORDS_PER_LINE /\
      map length (windows ws)
      = replicate (length ws / WORDS_PER_LINE) WORDS_PER_LINE
        ++ (if length ws mod WORDS_PER_LINE =? 0 then []
            else [length ws mod WORDS_PER_LINE]).
Proof.
  eexists. split; [apply assemble_ok |]. simpl.
  split; [reflexivity |]. split; [apply cues_from_content |]. split.
  - rewrite length_map. unfold all_lines.
    induction (payloads results) as [| ws pl IH]; [reflexivity |].
    simpl. rewrite length_app, IH, windows_length. reflexivity.
  - intros ws. split; [apply windows_concat |].
    split; [apply windows_length | apply windows_lengths].
Qed.

(** C2, as stated, fails: the scenario does not give one cue from 0.0 s
    to 1.4 s. *)
Lemma scenario_not_one_cue :
  ~ (exists st c,
       assemble scenario = Ok st /\
       length (total_words st) = 3 /\
       str_join " " (total_lines st) = "hi there friend" /\
       subs st = [c] /\
       sub_start c = 0%Z /\ sub_end c = 1400000%Z /\
       sub_content c = "hi there friend").
Proof.
  intros (st & c & Hrun & _ & _ & Hsubs & _).
  rewrite scenario_assembled in Hrun. injection Hrun as <-.
  simpl in Hsubs. discriminate Hsubs.
Qed.

(** C2, amended: the scenario gives 3 words, the transcript
    "hi there friend", and two cues, one per record with words: cue 0
    "hi there" from 0.0 s to 0.6 s and cue 1 "friend" from 1.0 s to 1.4 s. *)
Theorem scenario_two_cues :
  exists st,
    assemble scenario = Ok st /\
    total_words st = [w_hi; w_there; w_friend] /\
    length (total_words st) = 3 /\
    str_join " " (total_lines st) = "hi there friend" /\
    subs st = [ {| sub_index := 0; sub_start := 0; sub_end := 600000;
                   sub_content := "hi there" |};
                {| sub_index := 1; sub_start := 1000000; sub_end := 1400000;
                   sub_content := "friend" |} ].
Proof.
  eexists. split; [apply scenario_assembled |]. simpl. repeat split.
Qed.

(** C8: the word sequence is the concatenation, in record order, of the
    word lists of the records that carry [result]; assembly never raises,
    and a record without [result] changes nothing. *)
Theorem word_sequence_flattening (results : list jres) :
  exists st,
    assemble results = Ok st /\
    total_words st = concat (payloads results) /\
    forall (before after : list jres) (t : string),
      assemble (before ++ mkRes None t :: after) = assemble (before ++ after).
Proof.
  eexists. split; [apply assemble_ok |]. split; [reflexivity |].
  intros before after t. rewrite !assemble_ok.
  assert (Hp : payloads (before ++ mkRes None t :: after) = payloads (before ++ after)).
  { induction before as [| r rs IH]; simpl; [reflexivity |].
    destruct (result r); by rewrite IH. }
  unfold all_lines. by rewrite Hp.
Qed.

(** C9: when the word start times of the flattened sequence are
    non-decreasing, the cues built by the loop carry the indices 0 .. K-1
    in order and non-decreasing start times. *)
Theorem cue_indices_and_starts (results : list jres) (st : asm_state) :
  assemble results = Ok st ->
  Sorted Qle (map start (total_words st)) ->
  map sub_index (subs st) = seq 0 (length (subs st)) /\
  Sorted Z.le (map sub_start (subs st)).
Proof.
  intros Hrun Hsorted. rewrite assemble_ok in Hrun. injection Hrun as <-.
  simpl in *. split.
  - by rewrite cues_from_index, cues_from_length.
  - rewrite cues_from_start. apply StronglySorted_Sorted.
    rewrite <- (map_map (hd no_word) (fun w => timedelta (start w))).
    apply (StronglySorted_map_mono _ (fun a b => (start a <= start b)%Q)).
    { intros a b. apply timedelta_mono. }
    eapply StronglySorted_sublist; [apply heads_sublist_all |].
    apply StronglySorted_map_inv.
    apply Sorted_StronglySorted; [apply Qle_transitive | exact Hsorted].
Qed.

(** The scenario satisfies the hypotheses of [cue_indices_and_starts]. *)
Lemma cue_indices_and_starts_witness :
  exists st,
    assemble scenario = Ok st /\
    Sorted Qle (map start (total_words st)) /\
    map sub_index (subs st) = seq 0 (length (subs st)) /\
    Sorted Z.le (map sub_start (subs st)).
Proof.
  eexists. split; [vm_compute; reflexivity |].
  assert (Hs : Sorted Qle (map start [w_hi; w_there; w_friend])).
  { repeat constructor; unfold Qle; simpl; lia. }
  split; [exact Hs |].
  apply (cue_indices_and_starts scenario); [vm_compute; reflexivity | exact Hs].
Defined.

(** ** Audio normalisation *)

Lemma cast_int16_id z : int16_range z -> cast int16 z = z.
Proof.
  unfold int16_range, cast, wrap_signed. intros Hz.
  change (2 ^ (16 - 1))%Z with 32768%Z. change (2 ^ 16)%Z with 65536%Z.
  rewrite Z.mod_small by lia. lia.
Qed.

Lemma cast_int32_id z : int32_range z -> cast int32 z = z.
Proof.
  unfold int32_range, cast, wrap_signed. intros Hz.
  change (2 ^ (32 - 1))%Z with 2147483648%Z. change (2 ^ 32)%Z with 4294967296%Z.
  rewrite Z.mod_small by lia. lia.
Qed.

Lemma half_sum_range l r :
  int16_range l -> int16_range r -> int16_range ((l + r) / 2).
Proof.
  unfold int16_range. intros Hl Hr.
  split; [apply Z.div_le_lower_bound | apply Z.div_le_upper_bound]; lia.
Qed.

(** For 16 bit samples nothing wraps: the stored value is the exact floor
    of the mean. *)
Lemma mix_sample_exact l r :
  int16_range l -> int16_range r -> mix_sample l r = ((l + r) / 2)%Z.
Proof.
  intros Hl Hr. pose proof (half_sum_range l r Hl Hr) as Hm.
  unfold mix_sample, int16_range in *.
  rewrite (cast_int32_id l), (cast_int32_id r) by (unfold int32_range; lia).
  rewrite (cast_int32_id (l + r)) by (unfold int32_range; lia).
  rewrite (cast_int32_id ((l + r) / 2)) by (unfold int32_range; lia).
  apply cast_int16_id. exact Hm.
Qed.

Lemma zip_with_maps {A B C D} (f : B -> C -> D) (g : A -> B) (h : A -> C) l :
  zip_with f (map g l) (map h l) = map (fun x => f (g x) (h x)) l.
Proof. induction l as [| x l IH]; simpl; [done |]. by rewrite IH. Qed.

Lemma to_mono_one_axis d xs :
  to_mono (Arr1 d xs) = Ok (Arr1 int16 (map (cast int16) xs)).
Proof. reflexivity. Qed.

Lemma to_mono_channels d n rows :
  to_mono (Arr2 d (Datatypes.S (Datatypes.S n)) rows)
  = Ok (Arr1 int16
          (map (fun r => mix_sample (nth 0 r 0%Z) (nth 1 r 0%Z)) rows)).
Proof.
  unfold to_mono. simpl ndim. simpl column. unfold downmix.
  cbn [astype np_add]. rewrite !length_map, Nat.eqb_refl.
  cbn [astype np_floordiv]. do 2 f_equal.
  rewrite !map_map, zip_with_maps, !map_map.
  unfold mix_sample. reflexivity.
Qed.

Lemma map_zip_with_pair {D} (g : list Z -> D) (L R : list Z) :
  map g (zip_with (fun l r => [l; r]) L R) = zip_with (fun l r => g [l; r]) L R.
Proof.
  revert R. induction L as [| l L IH]; intros [| r R]; simpl; try done.
  by rewrite IH.
Qed.

Lemma zip_with_ext_Forall (f g : Z -> Z -> Z) (P : Z -> Prop) L R :
  (forall l r, P l -> P r -> f l r = g l r) ->
  Forall P L -> Forall P R -> zip_with f L R = zip_with g L R.
Proof.
  intros Hfg HL. revert R. induction HL as [| l L Hl _ IH]; intros R HR; [done |].
  destruct HR as [| r R Hr HR]; [done |]. simpl. rewrite IH by done.
  by rewrite Hfg.
Qed.

Lemma to_mono_stereo_int16 L R :
  Forall int16_range L -> Forall int16_range R ->
  to_mono (stereo int16 L R)
  = Ok (Arr1 int16 (zip_with (fun l r => ((l + r) / 2)%Z) L R)).
Proof.
  intros HL HR. unfold stereo. rewrite to_mono_channels, map_zip_with_pair.
  simpl nth. do 2 f_equal.
  apply (zip_with_ext_Forall _ _ int16_range); auto using mix_sample_exact.
Qed.

Lemma downmix_vectors d1 d2 L R :
  length L = length R ->
  downmix (Arr1 d1 L) (Arr1 d2 R) = Ok (Arr1 int16 (zip_with mix_sample L R)).
Proof.
  intros Hlen. unfold downmix. cbn [astype np_add].
  rewrite !length_map, Hlen, Nat.eqb_refl. cbn [astype np_floordiv].
  do 2 f_equal.
  clear Hlen. revert R.
  induction L as [| l L IH]; intros [| r R]; cbn [map zip_with]; try done.
  rewrite IH. unfold mix_sample. reflexivity.
Qed.

Lemma nth_zip_with_mean L R i :
  length L = length R ->
  nth i (zip_with (fun l r => ((l + r) / 2)%Z) L R) 0%Z
  = ((nth i L 0 + nth i R 0) / 2)%Z.
Proof.
  revert R i. induction L as [| l L IH]; intros [| r R] i Hlen; simpl in Hlen; try lia.
  - by destruct i.
  - destruct i as [| i]; simpl; [done |]. apply IH. lia.
Qed.

(** C4, as stated, fails for an odd sum: for L = [1] and R = [2] the code
    stores 1, the nearest integer to 1.5 is 2. *)
Lemma downmix_not_nearest :
  exists out,
    to_mono (stereo int16 [1%Z] [2%Z]) = Ok (Arr1 int16 out) /\
    downmix (Arr1 int16 [1%Z]) (Arr1 int16 [2%Z]) = Ok (Arr1 int16 out) /\
    nth 0 out 0%Z = 1%Z /\
    spec_round_to_int16 ((inject_Z 1 + inject_Z 2) / inject_Z 2) = 2%Z /\
    nth 0 out 0%Z <> spec_round_to_int16 ((inject_Z 1 + inject_Z 2) / inject_Z 2).
Proof.
  exists [1%Z]. repeat split; try (vm_compute; reflexivity).
  vm_compute. discriminate.
Qed.

(** Nor is the stored value the mean truncated towards zero: for -1 and -2
    the code stores -2. *)
Example downmix_negative_odd_sum :
  to_mono (stereo int16 [(-1)%Z] [(-2)%Z]) = Ok (Arr1 int16 [(-2)%Z]) /\
  Z.quot (-1 + -2) 2 = (-1)%Z.
Proof. split; vm_compute; reflexivity. Qed.

(** C4, amended: for paired 16 bit sequences of equal length the downmix
    stores at every index the floor of the mean, (L[i] + R[i]) div 2
    (rounded towards minus infinity, not to the nearest integer); the sum
    fits the 32 bit intermediate and the result fits 16 bits, so nothing
    wraps. *)
Theorem downmix_floor_mean (L R : list Z) :
  length L = length R ->
  Forall int16_range L ->
  Forall int16_range R ->
  let out := zip_with (fun l r => ((l + r) / 2)%Z) L R in
  to_mono (stereo int16 L R) = Ok (Arr1 int16 out) /\
  downmix (Arr1 int16 L) (Arr1 int16 R) = Ok (Arr1 int16 out) /\
  length out = length L /\
  (forall i, nth i out 0%Z = ((nth i L 0 + nth i R 0) / 2)%Z) /\
  Forall int32_range (zip_with Z.add L R) /\
  Forall int16_range out.
Proof.
  intros Hlen HL HR out. subst out.
  split; [by apply to_mono_stereo_int16 |].
  split.
  { rewrite downmix_vectors by done. do 2 f_equal.
    apply (zip_with_ext_Forall _ _ int16_range); auto using mix_sample_exact. }
  split; [rewrite length_zip_with; lia |].
  split; [intros i; by apply nth_zip_with_mean |].
  clear Hlen. revert R HR.
  induction HL as [| l L Hl _ IH]; intros R HR; [split; constructor |].
  destruct HR as [| r R Hr HR]; [split; constructor |].
  destruct (IH R HR) as [IH1 IH2]. simpl. split; constructor; auto.
  - unfold int16_range, int32_range in *. lia.
  - by apply half_sum_range.
Qed.

(** Both channels at the upper bound: the mean is 32767, nothing wraps. *)
Lemma downmix_floor_mean_witness :
  to_mono (stereo int16 [32767%Z] [32767%Z]) = Ok (Arr1 int16 [32767%Z]).
Proof.
  assert (H : Forall int16_range [32767%Z]).
  { repeat constructor; unfold int16_range; lia. }
  exact (proj1 (downmix_floor_mean [32767%Z] [32767%Z] eq_refl H H)).
Defined.

(** C5, as stated, fails: a three-channel input and a 32 bit input are
    both converted, no error is raised. *)
Lemma normaliser_accepts_other_formats :
  to_mono three_channel_frame = Ok (Arr1 int16 [1%Z]) /\
  to_mono wide_mono_sample = Ok (Arr1 int16 [4464%Z]) /\
  to_mono three_channel_frame <> Raise (Exception "FormatError") /\
  to_mono wide_mono_sample <> Raise (Exception "FormatError").
Proof. repeat split; try (vm_compute; reflexivity); vm_compute; discriminate. Qed.

(** ** The progress helper *)

Section PipelineFacts.
Context {Model R S E : Type}.
Context {rec_ops : Recognizer Model R} {audio_io : AudioIO E} {text_lib : TextLib}.
Implicit Types (self : Sharetape Model S) (w : world S E).

Lemma progress_no_callback self desc current total u w :
  progress_cb self = None -> _progress self desc current total u w = (Ok tt, w).
Proof. intros Hcb. unfold _progress. by rewrite Hcb. Qed.

(** The calls a report makes: none without a callback, else one, or two
    after a [TypeError]; only the sink and the trace change. *)
Lemma progress_effect self desc current total u w :
  exists n s',
    snd (_progress self desc current total u w)
    = mkWorld s' (ext w) (files w) (errlog w)
        (trace w ++ take n [EvProgress (mkArgs desc current total (Some u));
                            EvProgress (mkArgs desc current total None)]) /\
    (is_Some (progress_cb self) -> 1 <= n) /\
    (progress_cb self = None -> n = 0 /\ s' = sink w).
Proof.
  unfold _progress. destruct (progress_cb self) as [cb |].
  - unfold except_TypeError, call_cb.
    destruct (cb (mkArgs desc current total (Some u)) (sink w)) as [r s1] eqn:H1.
    assert (Hone : exists n s', 
      set_sink s1 (emit (EvProgress (mkArgs desc current total (Some u))) w)
      = mkWorld s' (ext w) (files w) (errlog w)
          (trace w ++ take n [EvProgress (mkArgs desc current total (Some u));
                              EvProgress (mkArgs desc current total None)]) /\
      (is_Some (Some cb) -> 1 <= n) /\ (Some cb = None -> n = 0 /\ s' = sink w)).
    { exists 1, s1. split; [reflexivity |]. split; [lia | discriminate]. }
    destruct r as [[] | e |]; [exact Hone | | exact Hone].
    destruct e; try exact Hone. simpl.
    destruct (cb (mkArgs desc current total None) s1) as [r2 s2]. simpl.
    exists 2, s2. split; [| split; [lia | discriminate]].
    unfold set_sink, emit. simpl. by rewrite <- app_assoc.
  - exists 0, (sink w). simpl. rewrite app_nil_r. destruct w. simpl.
    split; [reflexivity |]. split; [intros [? ?]; discriminate | done].
Qed.

Lemma progress_quiet self desc current total u w :
  quiet_callback self -> fst (_progress self desc current total u w) = Ok tt.
Proof.
  unfold quiet_callback, _progress. destruct (progress_cb self) as [cb |]; [| done].
  intros Hq. unfold except_TypeError, call_cb.
  specialize (Hq (mkArgs desc current total (Some u)) (sink w)).
  destruct (cb (mkArgs desc current total (Some u)) (sink w)) as [r s1].
  simpl in Hq. subst r. reflexivity.
Qed.

(** A callback of three parameters is served by the second call. *)
Example progress_three_arg_callback :
  let out := _progress (tape (Some cb_three_args)) "Transcribing" 0 1 "frames"
               (test_world mono_stream) in
  fst out = Ok tt /\ sink (snd out) = 1 /\ length (trace (snd out)) = 2.
Proof. vm_compute. repeat split. Qed.

(** C6, as stated, fails: a callback that raises ValueError makes the
    helper, and with it the recognition run, raise ValueError. *)
Lemma progress_propagates_ValueError :
  fst (_progress (tape (Some cb_raising)) "Transcribing" 0 1 "frames"
         (test_world mono_stream))
  = Raise (Exception "ValueError") /\
  fst (speech_2_text (rec_ops := scripted_recognizer) (text_lib := test_text_lib)
         (tape (Some cb_raising)) mono_stream (test_world mono_stream))
  = Raise (Exception "ValueError").
Proof. split; vm_compute; reflexivity. Qed.

(** C6, amended: without a callback the helper does nothing.  With one, it
    calls it with four arguments; only a [TypeError] of that call is caught,
    and answered by a call with three arguments whose outcome is the
    helper's; every other outcome of the first call, an exception included,
    is the helper's outcome.  The helper changes the callback's own state
    only: files, audio store and error log stay as they are. *)
Theorem progress_helper_outcome self desc current total u w :
  let out := _progress self desc current total u w in
  files (snd out) = files w /\
  ext (snd out) = ext w /\
  errlog (snd out) = errlog w /\
  match progress_cb self with
  | None => out = (Ok tt, w)
  | Some cb =>
      let first := cb (mkArgs desc current total (Some u)) (sink w) in
      match fst first with
      | Raise TypeError =>
          fst out = fst (cb (mkArgs desc current total None) (snd first))
      | r => fst out = r
      end
  end.
Proof.
  intros out. subst out.
  destruct (progress_effect self desc current total u w) as (n & s' & Hw & _).
  rewrite Hw. simpl. repeat split.
  unfold _progress. destruct (progress_cb self) as [cb |]; [| reflexivity].
  unfold except_TypeError, call_cb.
  destruct (cb (mkArgs desc current total (Some u)) (sink w)) as [r s1]. simpl.
  destruct r as [[] | e |]; try reflexivity.
  destruct e; try reflexivity.
  destruct (cb (mkArgs desc current total None) s1) as [r2 s2]. reflexivity.
Qed.

(** ** The transcription loop *)

Lemma reports_ok_nil T lo : reports_ok T lo [].
Proof. split; constructor. Qed.

Lemma reports_ok_replicate_app T lo c k rest :
  lo <= c <= T ->
  reports_ok T c rest ->
  reports_ok T lo (replicate k (c, T) ++ rest).
Proof.
  intros Hc [Hall Hsorted]. induction k as [| k [IH1 IH2]]; simpl.
  - split; [| exact Hsorted].
    eapply Forall_impl; [exact Hall |]. simpl. intros p ?. lia.
  - split; [constructor; [simpl; lia | exact IH1] |].
    constructor; [exact IH2 |].
    apply (proj2 (Forall_map fst (le c) _)).
    apply Forall_app. split.
    + apply Forall_forall. intros p Hp. apply elem_of_replicate in Hp.
      destruct Hp as [-> _]. simpl. lia.
    + eapply Forall_impl; [exact Hall |]. simpl. intros p ?. lia.
Qed.

Lemma reports_of_progress n c T u :
  exists k,
    transcribing_reports
      (take n [EvProgress (mkArgs "Transcribing" c T (Some u));
               EvProgress (mkArgs "Transcribing" c T None)])
    = replicate k (c, T) /\
    (1 <= n -> 1 <= k).
Proof.
  destruct n as [| [| n]].
  - exists 0. split; [reflexivity | lia].
  - exists 1. split; [reflexivity | lia].
  - exists 2. split; [| lia]. simpl. rewrite take_nil. reflexivity.
Qed.

Lemma transcribing_reports_app a b :
  transcribing_reports (a ++ b) = transcribing_reports a ++ transcribing_reports b.
Proof. apply omap_app. Qed.

(** Every iteration reports a value between the previous one and the
    total. *)
Lemma loop_reports fuel self T wf rec p results w :
  p <= T ->
  exists new,
    trace (snd (transcribe_loop fuel self T wf rec p results w)) = trace w ++ new /\
    reports_ok T p (transcribing_reports new).
Proof.
  revert wf rec p results w.
  induction fuel as [| fuel IH]; intros wf rec p results w Hp.
  { exists []. simpl. rewrite app_nil_r. split; [done | apply reports_ok_nil]. }
  cbn [transcribe_loop readframes sampwidth nchannels frames].
  destruct (take _ (frames wf)) as [| b data] eqn:Hdata.
  { exists []. simpl. rewrite app_nil_r. split; [done | apply reports_ok_nil]. }
  unfold bind at 1. unfold feed at 1.
  destruct (AcceptWaveform (b :: data) rec) as [seg0 rec1].
  unfold bind at 1. unfold py_floordiv.
  destruct (sampwidth wf * nchannels wf =? 0).
  { exists [EvFeed (b :: data)]. simpl. split; [done | apply reports_ok_nil]. }
  unfold ret at 1.
  set (p' := Nat.min _ T).
  set (w1 := emit (EvFeed (b :: data)) w).
  unfold bind at 1.
  destruct (progress_effect self "Transcribing" p' T "frames" w1)
    as (n & s' & Hw2 & _).
  destruct (reports_of_progress n p' T "frames") as (k & Hk & _).
  destruct (_progress self "Transcribing" p' T "frames" w1) as [r w2].
  simpl in Hw2. subst w2.
  assert (Hshort : reports_ok T p
            (transcribing_reports
               (EvFeed (b :: data)
                :: take n [EvProgress (mkArgs "Transcribing" p' T (Some "frames"));
                           EvProgress (mkArgs "Transcribing" p' T None)]))).
  { change (EvFeed (b :: data) :: ?l) with ([EvFeed (b :: data)] ++ l).
    rewrite transcribing_reports_app, Hk. simpl.
    rewrite <- (app_nil_r (replicate k (p', T))).
    apply reports_ok_replicate_app; [subst p'; lia | apply reports_ok_nil]. }
  destruct r as [[] | e |];
    [| eexists; split; [simpl; rewrite <- app_assoc; reflexivity | exact Hshort] ..].
  unfold bind at 1. unfold feed at 1.
  destruct (AcceptWaveform [] rec1) as [seg rec2].
  set (wf' := mkWave _ _ _ _ _ _).
  set (w3 := emit (EvFeed []) _).
  assert (Hrec : forall rec' results',
    exists new,
      trace (snd (transcribe_loop fuel self T wf' rec' p' results' w3))
      = trace w ++ new /\
      reports_ok T p (transcribing_reports new)).
  { intros rec' results'.
    destruct (IH wf' rec' p' results' w3) as (new' & Htr & Hok);
      [subst p'; lia |].
    eexists. split.
    - rewrite Htr. subst w3. simpl. rewrite <- !app_assoc. reflexivity.
    - simpl. rewrite !transcribing_reports_app, Hk. simpl.
      apply reports_ok_replicate_app; [subst p'; lia | exact Hok]. }
  destruct seg; [destruct (Result rec2) as [r rec3] |]; apply Hrec.
Qed.

Lemma reports_ok_app_final T lo reps k :
  lo <= T -> reports_ok T lo reps -> reports_ok T lo (reps ++ replicate k (T, T)).
Proof.
  intros Hlo [Hall Hsorted]. split.
  - apply Forall_app. split; [exact Hall |].
    apply Forall_forall. intros p Hp. apply elem_of_replicate in Hp.
    destruct Hp as [-> _]. simpl. lia.
  - rewrite map_app. apply StronglySorted_app. split; [| split].
    + intros x y Hx Hy.
      apply list_elem_of_In, in_map_iff in Hx. destruct Hx as (q & <- & Hq).
      apply list_elem_of_In, in_map_iff in Hy. destruct Hy as (q' & <- & Hq').
      apply list_elem_of_In, elem_of_replicate in Hq'. destruct Hq' as [-> _].
      rewrite Forall_forall in Hall. apply list_elem_of_In, Hall in Hq. simpl. lia.
    + exact Hsorted.
    + clear. induction k as [| k IH]; simpl; constructor; [exact IH |].
      apply (proj2 (Forall_map fst (le T) _)).
      apply Forall_forall. intros p Hp. apply elem_of_replicate in Hp.
      destruct Hp as [-> _]. simpl. lia.
Qed.

Lemma bad_format_false wf :
  bad_format wf = false ->
  nchannels wf = 1 /\ sampwidth wf = 2 /\ comptype wf = "NONE".
Proof.
  unfold bad_format. intros Hb.
  apply orb_false_elim in Hb. destruct Hb as [Hb H3].
  apply orb_false_elim in Hb. destruct Hb as [H1 H2].
  apply negb_false_iff in H1, H2, H3.
  apply Nat.eqb_eq in H1, H2. apply String.eqb_eq in H3. done.
Qed.

(** With a callback that returns, the loop ends without exception before
    its fuel does. *)
Lemma loop_returns fuel self T wf rec p results w :
  quiet_callback self ->
  sampwidth wf * nchannels wf <> 0 ->
  length (frames wf) < fuel ->
  exists v, fst (transcribe_loop fuel self T wf rec p results w) = Ok v.
Proof.
  intros Hq. revert wf rec p results w.
  induction fuel as [| fuel IH]; intros wf rec p results w Hfs Hlen; [lia |].
  cbn [transcribe_loop readframes sampwidth nchannels frames].
  destruct (take _ (frames wf)) as [| b data] eqn:Hdata; [by eexists |].
  unfold bind at 1. unfold feed at 1.
  destruct (AcceptWaveform (b :: data) rec) as [seg0 rec1].
  unfold bind at 1. unfold py_floordiv.
  destruct (Nat.eqb_spec (sampwidth wf * nchannels wf) 0) as [| _]; [done |].
  unfold ret at 1. unfold bind at 1.
  match goal with
  | |- context [_progress self ?d ?c T ?u ?w1] =>
      pose proof (progress_quiet self d c T u w1 Hq) as Hok;
        destruct (_progress self d c T u w1) as [r w2]
  end.
  simpl in Hok. subst r.
  unfold bind at 1. unfold feed at 1.
  destruct (AcceptWaveform [] rec1) as [seg rec2].
  set (wf' := mkWave _ _ _ _ _ _).
  assert (Hrec : forall rec' p' results' w',
    exists v, fst (transcribe_loop fuel self T wf' rec' p' results' w') = Ok v).
  { intros. apply IH; [exact Hfs |]. subst wf'. cbn [frames].
    apply (f_equal length) in Hdata. rewrite length_take in Hdata.
    rewrite length_drop. cbn [length] in Hdata.
    generalize dependent (chunk_frames * (sampwidth wf * nchannels wf)).
    intros k Hk. lia. }
  destruct seg; [destruct (Result rec2) as [r rec3] |]; apply Hrec.
Qed.

(** The reports of a recognition run on a valid stream. *)
Lemma speech_reports self wf w out :
  bad_format wf = false ->
  speech_2_text self wf w = out ->
  exists new,
    trace (snd out) = trace w ++ new /\
    reports_ok (nframes wf) 0 (transcribing_reports new) /\
    ((exists v, fst out = Ok v) ->
     is_Some (progress_cb self) ->
     last (transcribing_reports new) = Some (nframes wf, nframes wf)).
Proof.
  intros Hfmt Hout. unfold speech_2_text in Hout. rewrite Hfmt in Hout.
  set (T := nframes wf) in *. set (rec0 := SetPartialWords _ _) in Hout.
  unfold bind at 1 in Hout.
  destruct (progress_effect self "Transcribing" 0 T "frames" w) as (n0 & s0 & Hw1 & _).
  destruct (reports_of_progress n0 0 T "frames") as (k0 & Hk0 & _).
  destruct (_progress self "Transcribing" 0 T "frames" w) as [r0 w1].
  simpl in Hw1. subst w1.
  assert (Hfirst : reports_ok T 0 (replicate k0 (0, T))).
  { rewrite <- (app_nil_r (replicate _ _)).
    apply reports_ok_replicate_app; [lia | apply reports_ok_nil]. }
  destruct r0 as [[] | e |];
    [| subst out; eexists; split; [reflexivity |]; rewrite Hk0;
       (split; [exact Hfirst | intros [v Hv]; discriminate Hv]) ..].
  unfold bind at 1 in Hout.
  set (w1 := mkWorld _ _ _ _ _) in Hout.
  destruct (loop_reports (Datatypes.S (length (frames wf))) self T wf rec0 0 [] w1)
    as (new1 & Htr1 & Hok1); [lia |].
  destruct (transcribe_loop _ self T wf rec0 0 [] w1) as [r1 w2].
  simpl in Htr1.
  assert (Hmid : reports_ok T 0 (replicate k0 (0, T) ++ transcribing_reports new1)).
  { apply reports_ok_replicate_app; [lia | exact Hok1]. }
  destruct r1 as [[rec1 results] | e |];
    [| subst out;
       exists (take n0 [EvProgress (mkArgs "Transcribing" 0 T (Some "frames"));
                        EvProgress (mkArgs "Transcribing" 0 T None)] ++ new1);
       simpl; rewrite Htr1; subst w1; simpl; rewrite <- app_assoc;
       (split; [reflexivity |]); rewrite transcribing_reports_app, Hk0;
       (split; [exact Hmid | intros [v Hv]; discriminate Hv]) ..].
  destruct (FinalResult rec1) as [final rec2].
  unfold bind at 1 in Hout.
  destruct (progress_effect self "Transcribing" T T "frames" w2) as (n2 & s2 & Hw3 & Hn2 & _).
  destruct (reports_of_progress n2 T T "frames") as (k2 & Hk2 & Hk2pos).
  destruct (_progress self "Transcribing" T T "frames" w2) as [r2 w3].
  simpl in Hw3. subst w3.
  exists (take n0 [EvProgress (mkArgs "Transcribing" 0 T (Some "frames"));
                   EvProgress (mkArgs "Transcribing" 0 T None)]
          ++ new1
          ++ take n2 [EvProgress (mkArgs "Transcribing" T T (Some "frames"));
                      EvProgress (mkArgs "Transcribing" T T None)]).
  rewrite !transcribing_reports_app, Hk0, Hk2.
  assert (Hall : reports_ok T 0
            (replicate k0 (0, T) ++ transcribing_reports new1 ++ replicate k2 (T, T))).
  { rewrite app_assoc. apply reports_ok_app_final; [lia | exact Hmid]. }
  assert (Hlast : is_Some (progress_cb self) ->
            last (replicate k0 (0, T) ++ transcribing_reports new1 ++ replicate k2 (T, T))
            = Some (T, T)).
  { intros Hcb. specialize (Hk2pos (Hn2 Hcb)).
    destruct k2 as [| k2]; [lia |].
    rewrite replicate_S_end, !app_assoc. apply last_snoc. }
  assert (Htrace : forall (x : res (string * words_value * string)) (w' : world S E),
            trace w' = (trace w2 ++ take n2
                            [EvProgress (mkArgs "Transcribing" T T (Some "frames"));
                             EvProgress (mkArgs "Transcribing" T T None)]) ->
            trace (snd (x, w')) = trace w ++
              take n0 [EvProgress (mkArgs "Transcribing" 0 T (Some "frames"));
                       EvProgress (mkArgs "Transcribing" 0 T None)]
              ++ new1
              ++ take n2 [EvProgress (mkArgs "Transcribing" T T (Some "frames"));
                          EvProgress (mkArgs "Transcribing" T T None)]).
  { intros x w' Hw'. simpl. rewrite Hw', Htr1. subst w1. simpl.
    by rewrite <- !app_assoc. }
  destruct r2 as [[] | e |];
    [| subst out;
       split; [by apply Htrace | split; [exact Hall | intros [v Hv]; discriminate Hv]] ..].
  unfold bind, lift in Hout. rewrite assemble_ok in Hout. unfold ret in Hout.
  subst out.
  split; [by apply Htrace | split; [exact Hall | intros _; exact Hlast]].
Qed.

Lemma speech_returns self wf w :
  bad_format wf = false ->
  quiet_callback self ->
  exists v, fst (speech_2_text self wf w) = Ok v.
Proof.
  intros Hfmt Hq. unfold speech_2_text. rewrite Hfmt.
  set (rec0 := SetPartialWords _ _).
  unfold bind at 1.
  pose proof (progress_quiet self "Transcribing" 0 (nframes wf) "frames" w Hq) as H0.
  destruct (_progress self "Transcribing" 0 (nframes wf) "frames" w) as [r0 w1].
  simpl in H0. subst r0.
  unfold bind at 1.
  destruct (bad_format_false wf Hfmt) as (Hch & Hsw & _).
  destruct (loop_returns (Datatypes.S (length (frames wf))) self (nframes wf)
              wf rec0 0 [] w1 Hq) as [[rec1 results] Hloop];
    [rewrite Hch, Hsw; discriminate | lia |].
  destruct (transcribe_loop _ self (nframes wf) wf rec0 0 [] w1) as [r1 w2].
  simpl in Hloop. subst r1.
  destruct (FinalResult rec1) as [final rec2].
  unfold bind at 1.
  pose proof (progress_quiet self "Transcribing" (nframes wf) (nframes wf)
                "frames" w2 Hq) as H2.
  destruct (_progress self "Transcribing" (nframes wf) (nframes wf) "frames" w2)
    as [r2 w3].
  simpl in H2. subst r2.
  unfold bind, lift. rewrite assemble_ok. unfold ret. simpl. by eexists.
Qed.

(** C7: in a recognition run over a valid stream of [nframes] frames the
    "Transcribing" calls of the callback carry the total [nframes] and
    current values that never decrease and never exceed it; when the run
    returns and a callback is set, the last call carries
    [(nframes, nframes)]; the run returns whenever the callback does. *)
Theorem progress_monotone self wf w :
  bad_format wf = false ->
  exists new,
    trace (snd (speech_2_text self wf w)) = trace w ++ new /\
    Forall (fun p => snd p = nframes wf /\ fst p <= nframes wf)
           (transcribing_reports new) /\
    Sorted le (map fst (transcribing_reports new)) /\
    ((exists v, fst (speech_2_text self wf w) = Ok v) ->
     is_Some (progress_cb self) ->
     last (transcribing_reports new) = Some (nframes wf, nframes wf)) /\
    (quiet_callback self -> exists v, fst (speech_2_text self wf w) = Ok v).
Proof.
  intros Hfmt.
  destruct (speech_reports self wf w _ Hfmt eq_refl) as (new & Htr & [Hall Hs] & Hlast).
  exists new. split; [exact Htr |]. split; [| split; [| split]].
  - eapply Forall_impl; [exact Hall |]. simpl. intros p ?. lia.
  - by apply StronglySorted_Sorted.
  - exact Hlast.
  - by apply speech_returns.
Qed.

(** ** Format validation and the artifacts *)

Lemma speech_bad_format self wf w :
  bad_format wf = true ->
  speech_2_text self wf w = (Ok ("", WStr "", ""), logged_format_error w).
Proof. intros Hfmt. unfold speech_2_text. rewrite Hfmt. reflexivity. Qed.

Lemma persist_empty self w :
  persist self ("", WStr "", "") w = (Ok tt, empty_artifacts self w).
Proof. reflexivity. Qed.

Lemma extract_bad_format self w wa w1 wf :
  extract_audio self w = (Ok tt, wa) ->
  convert_to_mono self wa = (Ok tt, w1) ->
  wave_open (mono_audio self) (ext w1) = Ok wf ->
  bad_format wf = true ->
  handle_speech_2_text self wa = (Ok ("", WStr "", ""), logged_format_error w1) /\
  extract_transcript self w
  = (Ok tt, empty_artifacts self (logged_format_error w1)).
Proof.
  intros Ha Hc Ho Hfmt.
  assert (Hh : handle_speech_2_text self wa
               = (Ok ("", WStr "", ""), logged_format_error w1)).
  { unfold handle_speech_2_text, bind. rewrite Hc. unfold ext_get. rewrite Ho.
    by apply speech_bad_format. }
  split; [exact Hh |].
  unfold extract_transcript, bind. rewrite Ha, Hh. apply persist_empty.
Qed.

Lemma keeps_fed_ret {A} (a : A) : keeps_fed (S := S) (E := E) (ret a).
Proof. by intros w. Qed.

Lemma keeps_fed_bind {A B} (m : M A) (k : A -> M B) :
  keeps_fed (S := S) (E := E) m ->
  (forall a, keeps_fed (S := S) (E := E) (k a)) ->
  keeps_fed (S := S) (E := E) (bind m k).
Proof.
  intros Hm Hk w. unfold bind. specialize (Hm w).
  destruct (m w) as [[a | e |] w']; simpl in *; [| done | done].
  by rewrite Hk.
Qed.

Lemma keeps_fed_progress self desc current total u :
  keeps_fed (S := S) (E := E) (_progress self desc current total u).
Proof.
  intros w. destruct (progress_effect self desc current total u w) as (n & s' & -> & _).
  simpl. unfold fed_chunks. rewrite omap_app.
  destruct n as [| [| n]]; simpl; rewrite ?take_nil; simpl; by rewrite app_nil_r.
Qed.

Lemma keeps_fed_lift {A} (r : res A) : keeps_fed (S := S) (E := E) (lift r).
Proof. by intros w. Qed.

Lemma keeps_fed_ext_get {A} (f : E -> res A) : keeps_fed (S := S) (E := E) (ext_get f).
Proof. by intros w. Qed.

Lemma keeps_fed_ext_do (f : E -> res E) : keeps_fed (S := S) (E := E) (ext_do f).
Proof. intros w. unfold ext_do. by destruct (f (ext w)). Qed.

Lemma convert_keeps_fed self : keeps_fed (S := S) (E := E) (convert_to_mono self).
Proof.
  unfold convert_to_mono.
  apply keeps_fed_bind; [apply keeps_fed_progress | intros _].
  apply keeps_fed_bind; [apply keeps_fed_ext_get | intros [rate data]].
  apply keeps_fed_bind; [apply keeps_fed_lift | intros mono].
  apply keeps_fed_bind; [apply keeps_fed_ext_do | intros _].
  apply keeps_fed_progress.
Qed.

Lemma extract_audio_keeps_fed self : keeps_fed (S := S) (E := E) (extract_audio self).
Proof.
  unfold extract_audio. destruct (decide (video self = "")); [apply keeps_fed_ret |].
  apply keeps_fed_bind; [apply keeps_fed_progress | intros _].
  apply keeps_fed_bind; [apply keeps_fed_ext_get | intros has_audio].
  apply keeps_fed_bind; [| intros _; apply keeps_fed_progress].
  destruct has_audio; [apply keeps_fed_ext_do | apply keeps_fed_ret].
Qed.

(** C3, amended: when the opened mono stream fails the format guard, no
    exception is raised: the error is logged, [handle_speech_2_text] returns
    three empty strings without having fed anything to the recognizer, and
    [extract_transcript] returns normally after writing the three
    artifacts (empty transcript, word data [json.dump] of the empty string,
    empty subtitles). *)
Theorem bad_format_logs_and_writes self w wa w1 wf :
  extract_audio self w = (Ok tt, wa) ->
  convert_to_mono self wa = (Ok tt, w1) ->
  wave_open (mono_audio self) (ext w1) = Ok wf ->
  bad_format wf = true ->
  speech_2_text self wf w1 = (Ok ("", WStr "", ""), logged_format_error w1) /\
  fst (extract_transcript self w) = Ok tt /\
  fed_chunks (trace (snd (extract_transcript self w))) = fed_chunks (trace w) /\
  errlog (snd (extract_transcript self w))
  = errlog w1 ++ ["Audio file must be WAV format mono PCM."] /\
  files (snd (extract_transcript self w))
  = <[subtitles self := ""]>
      (<[words self := dquote +:+ dquote]>
         (<[transcript self := ""]> (files w1))).
Proof.
  intros Ha Hc Ho Hfmt.
  destruct (extract_bad_format self w wa w1 wf Ha Hc Ho Hfmt) as [_ Hrun].
  split; [by apply speech_bad_format |].
  rewrite Hrun. simpl. repeat split.
  pose proof (convert_keeps_fed self wa) as H1. rewrite Hc in H1.
  pose proof (extract_audio_keeps_fed self w) as H2. rewrite Ha in H2.
  simpl in H1, H2. congruence.
Qed.

(** C10: when the opened mono stream fails the format guard,
    [handle_speech_2_text] returns [("", "", "")], its word component being
    the empty string and not a list; [extract_transcript] passes it to
    [save_data], so the word-data file (a path other than the subtitle
    path) holds the JSON text of the empty string, two double quotes, which
    is the JSON text of no word list. *)
Theorem bad_format_words_file self w wa w1 wf :
  extract_audio self w = (Ok tt, wa) ->
  convert_to_mono self wa = (Ok tt, w1) ->
  wave_open (mono_audio self) (ext w1) = Ok wf ->
  bad_format wf = true ->
  words self <> subtitles self ->
  handle_speech_2_text self wa = (Ok ("", WStr "", ""), logged_format_error w1) /\
  WStr "" <> WList [] /\
  fst (extract_transcript self w) = Ok tt /\
  files (snd (extract_transcript self w)) !! words self = Some (json_dumps (WStr "")) /\
  json_dumps (WStr "") = String "034"%char (String "034"%char "") /\
  (forall l : list WordEntry, json_dumps (WList l) <> json_dumps (WStr "")).
Proof.
  intros Ha Hc Ho Hfmt Hpaths.
  destruct (extract_bad_format self w wa w1 wf Ha Hc Ho Hfmt) as [Hh Hrun].
  split; [exact Hh |]. split; [discriminate |].
  rewrite Hrun. simpl. split; [reflexivity |]. split; [| split].
  - rewrite lookup_insert_ne by done. by rewrite lookup_insert_eq.
  - reflexivity.
  - intros l. discriminate.
Qed.

End PipelineFacts.

(** ** Instances of the statements above *)

(** A run of two chunks with a counting callback. *)
Lemma progress_monotone_witness :
  bad_format mono_stream = false /\
  exists new,
    trace (snd (speech_2_text (rec_ops := scripted_recognizer)
                  (text_lib := test_text_lib)
                  (tape (Some cb_counting)) mono_stream (test_world mono_stream)))
    = [] ++ new /\
    Forall (fun p => snd p = 4500 /\ fst p <= 4500) (transcribing_reports new) /\
    Sorted le (map fst (transcribing_reports new)).
Proof.
  split; [reflexivity |].
  destruct (progress_monotone (rec_ops := scripted_recognizer)
              (text_lib := test_text_lib)
              (tape (Some cb_counting)) mono_stream (test_world mono_stream)
              eq_refl) as (new & Htr & Hall & Hsorted & _).
  exists new. split; [exact Htr |]. split; [exact Hall | exact Hsorted].
Defined.

(** C3, as stated, fails: for a two-channel stream no exception is raised
    and the three artifacts are written. *)
Lemma bad_format_raises_nothing :
  bad_format stereo_stream = true /\
  speech_2_text (rec_ops := scripted_recognizer) (text_lib := test_text_lib)
    (tape None) stereo_stream (test_world stereo_stream)
  = (Ok ("", WStr "", ""), logged_format_error (test_world stereo_stream)) /\
  let out := extract_transcript (rec_ops := scripted_recognizer)
               (audio_io := test_audio_io) (text_lib := test_text_lib)
               (tape None) (test_world stereo_stream) in
  fst out = Ok tt /\
  fst out <> Raise (Exception "FormatError") /\
  files (snd out) !! "transcript.txt" = Some "" /\
  files (snd out) !! "words.json" = Some (String "034"%char (String "034"%char "")) /\
  files (snd out) !! "captions.srt" = Some "".
Proof.
  split; [reflexivity |]. split; [reflexivity |].
  repeat split; try (vm_compute; reflexivity). vm_compute. discriminate.
Qed.

(** A two-channel stream behind [wave.open], no callback, audio mode. *)
Lemma bad_format_logs_and_writes_witness :
  bad_format stereo_stream = true /\
  fst (extract_transcript (rec_ops := scripted_recognizer)
         (audio_io := test_audio_io) (text_lib := test_text_lib)
         (tape None) (test_world stereo_stream)) = Ok tt /\
  fed_chunks (trace (snd (extract_transcript (rec_ops := scripted_recognizer)
                            (audio_io := test_audio_io) (text_lib := test_text_lib)
                            (tape None) (test_world stereo_stream))))
  = fed_chunks (trace (test_world stereo_stream)).
Proof.
  split; [reflexivity |].
  destruct (bad_format_logs_and_writes (rec_ops := scripted_recognizer)
              (audio_io := test_audio_io) (text_lib := test_text_lib)
              (tape None) (test_world stereo_stream) _ _ stereo_stream
              eq_refl eq_refl eq_refl eq_refl) as (_ & Hok & Hfed & _).
  split; [exact Hok | exact Hfed].
Defined.

(** The same run: the word-data file of the test tape. *)
Lemma bad_format_words_file_witness :
  bad_format stereo_stream = true /\
  words (tape None) <> subtitles (tape None) /\
  files (snd (extract_transcript (rec_ops := scripted_recognizer)
                (audio_io := test_audio_io) (text_lib := test_text_lib)
                (tape None) (test_world stereo_stream)))
    !! words (tape None)
  = Some (json_dumps (text_lib := test_text_lib) (WStr "")).
Proof.
  split; [reflexivity |].
  assert (Hpaths : words (tape None) <> subtitles (tape None)).
  { simpl. discriminate. }
  split; [exact Hpaths |].
  destruct (bad_format_words_file (rec_ops := scripted_recognizer)
              (audio_io := test_audio_io) (text_lib := test_text_lib)
              (tape None) (test_world stereo_stream) _ _ stereo_stream
              eq_refl eq_refl eq_refl eq_refl Hpaths) as (_ & _ & _ & Hfile & _).
  exact Hfile.
Defined.

(** * Further properties of the code *)

(** ** Assembly: transcript text, lines and cue times *)

Lemma string_app_assoc (a b c : string) : (a +:+ b) +:+ c = a +:+ (b +:+ c).
Proof.
  induction a as [| x a IH]; [reflexivity |].
  change (String x ((a +:+ b) +:+ c) = String x (a +:+ (b +:+ c))).
  by rewrite IH.
Qed.

Lemma str_join_cons sep x l :
  l <> [] -> str_join sep (x :: l) = x +:+ sep +:+ str_join sep l.
Proof. destruct l; [done | reflexivity]. Qed.

Lemma str_join_app sep l1 l2 :
  l1 <> [] -> l2 <> [] ->
  str_join sep (l1 ++ l2) = str_join sep l1 +:+ sep +:+ str_join sep l2.
Proof.
  intros H1 H2. induction l1 as [| x l1 IH]; [done |].
  destruct l1 as [| y l1].
  - simpl app. by rewrite str_join_cons.
  - change ((x :: y :: l1) ++ l2) with (x :: ((y :: l1) ++ l2)).
    rewrite str_join_cons by done. rewrite IH by done.
    rewrite (str_join_cons sep x (y :: l1)) by done.
    by rewrite !string_app_assoc.
Qed.

Lemma str_join_concat sep (ls : list (list string)) :
  Forall (fun l => l <> []) ls ->
  str_join sep (map (str_join sep) ls) = str_join sep (concat ls).
Proof.
  induction 1 as [| l ls Hl Hls IH]; [reflexivity |].
  destruct ls as [| l' ls].
  - simpl. by rewrite app_nil_r.
  - change (map (str_join sep) (l :: l' :: ls))
      with (str_join sep l :: map (str_join sep) (l' :: ls)).
    rewrite str_join_cons by done. rewrite IH.
    change (concat (l :: l' :: ls)) with (l ++ concat (l' :: ls)).
    rewrite str_join_app; [done | done |].
    inversion Hls; subst. simpl. by destruct l'.
Qed.

Lemma all_lines_concat results : concat (all_lines results) = concat (payloads results).
Proof.
  unfold all_lines. induction (payloads results) as [| ws pl IH]; [reflexivity |].
  simpl. by rewrite concat_app, windows_concat, IH.
Qed.

Lemma all_lines_nonempty results : Forall (fun l => l <> []) (all_lines results).
Proof.
  unfold all_lines. induction (payloads results) as [| ws pl IH]; [constructor |].
  simpl. apply Forall_app. split; [apply windows_nonempty | exact IH].
Qed.

(** X1: the transcript text is the whole word sequence joined by single
    spaces: the division into lines and records leaves no mark in it. *)
Theorem transcript_is_joined_words (results : list jres) :
  exists st,
    assemble results = Ok st /\
    str_join " " (total_lines st) = str_join " " (map word (total_words st)).
Proof.
  eexists. split; [apply assemble_ok |]. simpl.
  unfold line_text. rewrite <- (map_map (map word) (str_join " ")).
  rewrite str_join_concat.
  - by rewrite <- concat_map, all_lines_concat.
  - apply (proj2 (Forall_map (map word) (fun l => l <> []) _)).
    eapply Forall_impl; [apply all_lines_nonempty |].
    simpl. intros l Hl. by destruct l.
Qed.

Lemma windows_bounded ws :
  Forall (fun l => 1 <= length l <= WORDS_PER_LINE) (windows ws).
Proof.
  induction ws as [| ws Hne IH] using windows_ind; [constructor |].
  rewrite windows_unfold by done. constructor; [| exact IH].
  rewrite length_take. unfold WORDS_PER_LINE.
  assert (1 <= length ws) by (destruct ws; [done | simpl; lia]).
  lia.
Qed.

(** X2: the cues are built from lines of 1 to 14 consecutive words that,
    put end to end, are exactly the word sequence: every word is in one
    cue, in order. *)
Theorem cues_partition_words (results : list jres) :
  exists st lines,
    assemble results = Ok st /\
    subs st = cues_from 0 lines /\
    total_lines st = map line_text lines /\
    concat lines = total_words st /\
    Forall (fun l => 1 <= length l <= WORDS_PER_LINE) lines.
Proof.
  eexists. exists (all_lines results). split; [apply assemble_ok |]. simpl.
  repeat split; [apply all_lines_concat |].
  unfold all_lines. induction (payloads results) as [| ws pl IH]; [constructor |].
  simpl. apply Forall_app. split; [apply windows_bounded | exact IH].
Qed.

(** X3: records that carry no word at all give empty outputs: no cue, no
    line, no word, and the empty transcript. *)
Theorem no_words_no_output (results : list jres) :
  concat (payloads results) = [] ->
  assemble results = Ok {| subs := []; total_lines := []; total_words := [] |} /\
  str_join " " [] = "".
Proof.
  intros Hempty. split; [| reflexivity]. rewrite assemble_ok, Hempty.
  assert (Hl : all_lines results = []).
  { unfold all_lines. induction (payloads results) as [| ws pl IH]; [reflexivity |].
    simpl in Hempty. apply app_eq_nil in Hempty. destruct Hempty as [-> Hpl].
    simpl. by apply IH. }
  by rewrite Hl.
Qed.

Lemma no_words_no_output_witness :
  assemble [mkRes None ""; mkRes (Some []) ""]
  = Ok {| subs := []; total_lines := []; total_words := [] |}.
Proof.
  exact (proj1 (no_words_no_output [mkRes None ""; mkRes (Some []) ""] eq_refl)).
Defined.

Lemma windows_sublists ws : Forall (fun l => l `sublist_of` ws) (windows ws).
Proof.
  induction ws as [| ws Hne IH] using windows_ind; [constructor |].
  rewrite windows_unfold by done. constructor; [apply sublist_take |].
  eapply Forall_impl; [exact IH |]. simpl. intros l Hl.
  etrans; [exact Hl | apply sublist_drop].
Qed.

Lemma all_lines_sublists results :
  Forall (fun l => l `sublist_of` concat (payloads results)) (all_lines results).
Proof.
  unfold all_lines. induction (payloads results) as [| ws pl IH]; [constructor |].
  simpl. apply Forall_app. split.
  - eapply Forall_impl; [apply windows_sublists |]. simpl. intros l Hl.
    by apply sublist_inserts_r.
  - eapply Forall_impl; [exact IH |]. simpl. intros l Hl.
    by apply sublist_inserts_l.
Qed.

Lemma sorted_head_le_last (l : list WordEntry) :
  StronglySorted (fun a b => (start a <= start b)%Q) l ->
  (start (hd no_word l) <= start (List.last l no_word))%Q.
Proof.
  destruct l as [| x l]; [intros _; apply Qle_refl |].
  intros Hs. apply StronglySorted_inv in Hs. destruct Hs as [_ Hx].
  destruct l as [| y l]; [apply Qle_refl |].
  rewrite Forall_forall in Hx. apply Hx.
  change (List.last (x :: y :: l) no_word) with (List.last (y :: l) no_word).
  pose proof (last_default y l no_word) as Hlast.
  apply list_elem_of_lookup. exists (length l).
  change (y :: l) with ([y] ++ l) at 1.
  rewrite <- Hlast. rewrite last_lookup. reflexivity.
Qed.

(** X4: when the word sequence is chronological and no word ends before
    it starts, no cue ends before it starts. *)
Theorem cue_intervals_well_formed (results : list jres) (st : asm_state) :
  assemble results = Ok st ->
  Sorted Qle (map start (total_words st)) ->
  Forall (fun w => (start w <= end_ w)%Q) (total_words st) ->
  Forall (fun c => (sub_start c <= sub_end c)%Z) (subs st).
Proof.
  intros Hrun Hsorted Hwords. rewrite assemble_ok in Hrun. injection Hrun as <-.
  simpl in *.
  assert (Hss : StronglySorted (fun a b => (start a <= start b)%Q)
                  (concat (payloads results))).
  { apply StronglySorted_map_inv.
    apply Sorted_StronglySorted; [apply Qle_transitive | exact Hsorted]. }
  pose proof (all_lines_sublists results) as Hsub.
  pose proof (all_lines_nonempty results) as Hne.
  generalize 0 as i.
  induction (all_lines results) as [| l ls IH]; intros i; [constructor |].
  inversion Hsub as [| ? ? Hl Hls]; subst. inversion Hne as [| ? ? Hl' Hls']; subst.
  simpl. constructor; [| by apply IH].
  simpl. apply timedelta_mono.
  eapply Qle_trans.
  - apply sorted_head_le_last. by eapply StronglySorted_sublist.
  - rewrite Forall_forall in Hwords. apply Hwords.
    eapply elem_of_sublist; [| exact Hl].
    destruct l as [| x l]; [done |].
    pose proof (last_default x l no_word) as Hlast.
    apply list_elem_of_lookup. exists (length l).
    rewrite <- Hlast, last_lookup. reflexivity.
Qed.

Lemma cue_intervals_well_formed_witness :
  exists st,
    assemble scenario = Ok st /\
    Forall (fun c => (sub_start c <= sub_end c)%Z) (subs st).
Proof.
  eexists. split; [vm_compute; reflexivity |].
  apply (cue_intervals_well_formed scenario); [vm_compute; reflexivity | |].
  - repeat constructor; unfold Qle; simpl; lia.
  - repeat constructor; unfold Qle; simpl; lia.
Defined.

Lemma payloads_app a b : payloads (a ++ b) = payloads a ++ payloads b.
Proof.
  induction a as [| r a IH]; simpl; [done |].
  destruct (result r); simpl; by rewrite IH.
Qed.

Lemma all_lines_app a b : all_lines (a ++ b) = all_lines a ++ all_lines b.
Proof. unfold all_lines. by rewrite payloads_app, map_app, concat_app. Qed.

Lemma cues_from_shift k i lines :
  cues_from (k + i) lines = map (shift_index k) (cues_from i lines).
Proof.
  revert i. induction lines as [| l ls IH]; intros i; simpl; [done |].
  f_equal. rewrite <- IH. f_equal. lia.
Qed.

(** X5: assembling two batches of records in a row gives the words and
    lines of the first followed by those of the second, and the cues of the
    second renumbered to continue after the cues of the first. *)
Theorem assemble_concatenation (a b : list jres) :
  exists sa sb sab,
    assemble a = Ok sa /\
    assemble b = Ok sb /\
    assemble (a ++ b) = Ok sab /\
    total_words sab = total_words sa ++ total_words sb /\
    total_lines sab = total_lines sa ++ total_lines sb /\
    subs sab = subs sa ++ map (shift_index (length (subs sa))) (subs sb).
Proof.
  do 3 eexists. repeat (split; [apply assemble_ok |]). simpl.
  rewrite payloads_app, concat_app, all_lines_app, map_app, cues_from_app.
  repeat split. f_equal. rewrite cues_from_length.
  rewrite <- cues_from_shift. f_equal. lia.
Qed.

(** ** Audio normalisation: what the conversion keeps *)

Lemma cast_int16_in_range z : int16_range (cast int16 z).
Proof.
  unfold int16_range, cast, wrap_signed.
  change (2 ^ (16 - 1))%Z with 32768%Z. change (2 ^ 16)%Z with 65536%Z.
  pose proof (Z.mod_pos_bound (z + 32768) 65536). lia.
Qed.

Lemma map_cast_int16_id xs :
  Forall int16_range xs -> map (cast int16) xs = xs.
Proof.
  induction 1 as [| x xs Hx _ IH]; [done |].
  cbn [map]. by rewrite cast_int16_id, IH.
Qed.

(** X6: a single-channel input whose samples fit 16 bits passes through
    unchanged, whatever its integer sample type. *)
Theorem mono_passes_unchanged (d : dtype) (xs : list Z) :
  Forall int16_range xs ->
  to_mono (Arr1 d xs) = Ok (Arr1 int16 xs).
Proof. intros Hxs. rewrite to_mono_one_axis. by rewrite map_cast_int16_id. Qed.

Lemma mono_passes_unchanged_witness :
  to_mono (Arr1 uint8 [0; 128; 255]%Z) = Ok (Arr1 int16 [0; 128; 255]%Z).
Proof.
  apply mono_passes_unchanged.
  repeat constructor; unfold int16_range; lia.
Defined.

(** X7: whenever the conversion succeeds its result is one axis of 16 bit
    samples, one per input frame, each within the 16 bit range. *)
Theorem to_mono_result_shape (data out : ndarray) :
  to_mono data = Ok out ->
  exists xs,
    out = Arr1 int16 xs /\
    length xs = frame_count data /\
    Forall int16_range xs.
Proof.
  destruct data as [d xs | d n rows].
  - rewrite to_mono_one_axis. intros [= <-]. eexists. split; [reflexivity |].
    split; [by rewrite length_map |].
    apply (proj2 (Forall_map _ _ _)). apply Forall_forall. intros.
    apply cast_int16_in_range.
  - destruct n as [| [| n]]; [discriminate | discriminate |].
    rewrite to_mono_channels. intros [= <-]. eexists. split; [reflexivity |].
    split; [by rewrite length_map |].
    apply (proj2 (Forall_map _ _ _)). apply Forall_forall. intros.
    apply cast_int16_in_range.
Qed.

Lemma to_mono_result_shape_witness :
  exists xs,
    Arr1 int16 [1%Z] = Arr1 int16 xs /\
    length xs = frame_count three_channel_frame /\
    Forall int16_range xs.
Proof. apply (to_mono_result_shape three_channel_frame). reflexivity. Defined.

Lemma zip_with_flip {A B} (f : A -> A -> B) (L R : list A) :
  (forall x y, f x y = f y x) -> zip_with f L R = zip_with f R L.
Proof.
  intros Hf. revert R. induction L as [| l L IH]; intros [| r R]; simpl; try done.
  by rewrite Hf, IH.
Qed.

Lemma mix_sample_comm l r : mix_sample l r = mix_sample r l.
Proof. unfold mix_sample. by rewrite Z.add_comm. Qed.

(** X8: exchanging the two channels of a two-channel input does not change
    the mono result, for every sample type and every sample value. *)
Theorem downmix_symmetric (d : dtype) (L R : list Z) :
  to_mono (stereo d L R) = to_mono (stereo d R L).
Proof.
  unfold stereo. rewrite !to_mono_channels, !map_zip_with_pair. simpl nth.
  do 2 f_equal. apply zip_with_flip. apply mix_sample_comm.
Qed.

(** X9: for 16 bit channels each mono sample lies between the two channel
    samples it comes from; in particular a signal that is the same on both
    channels comes out unchanged. *)
Theorem downmix_between_channels (L R : list Z) :
  length L = length R ->
  Forall int16_range L ->
  Forall int16_range R ->
  exists out,
    to_mono (stereo int16 L R) = Ok (Arr1 int16 out) /\
    (forall i, (Z.min (nth i L 0) (nth i R 0) <= nth i out 0
                <= Z.max (nth i L 0) (nth i R 0))%Z) /\
    (L = R -> out = L).
Proof.
  intros Hlen HL HR. eexists. split; [by apply to_mono_stereo_int16 |]. split.
  - intros i. rewrite nth_zip_with_mean by done.
    split; [apply Z.div_le_lower_bound | apply Z.div_le_upper_bound]; lia.
  - intros <-. clear. induction L as [| l L IH]; simpl; [done |].
    rewrite IH. f_equal. replace (l + l)%Z with (l * 2)%Z by lia.
    by apply Z.div_mul.
Qed.

Lemma downmix_between_channels_witness :
  exists out,
    to_mono (stereo int16 [32767; -5]%Z [32767; -5]%Z) = Ok (Arr1 int16 out) /\
    out = [32767; -5]%Z.
Proof.
  assert (H : Forall int16_range [32767; -5]%Z).
  { repeat constructor; unfold int16_range; lia. }
  destruct (downmix_between_channels _ _ eq_refl H H) as (out & Hrun & _ & Hsame).
  exists out. split; [exact Hrun | by apply Hsame].
Defined.

(** ** Recognition: what is fed to the recognizer *)

Lemma chunked_aux_concat fuel n (l : list Byte.byte) :
  0 < n -> length l < fuel ->
  concat (chunked_aux fuel n l) = l /\
  Forall (fun c => 1 <= length c <= n) (chunked_aux fuel n l).
Proof.
  intros Hn. revert l. induction fuel as [| fuel IH]; intros l Hlen; [lia |].
  cbn [chunked_aux]. destruct (take n l) as [| b c] eqn:Htake.
  - assert (l = []) as ->; [| by split].
    destruct l as [| x l]; [done |]. destruct n; [lia | discriminate].
  - assert (Hc : 1 <= length (b :: c) <= n).
    { rewrite <- Htake, length_take.
      apply (f_equal length) in Htake. rewrite length_take in Htake.
      simpl in Htake. lia. }
    destruct (IH (drop n l)) as [IH1 IH2].
    { rewrite length_drop. apply (f_equal length) in Htake.
      rewrite length_take in Htake. simpl in Htake. lia. }
    split.
    + cbn [concat]. rewrite IH1, <- Htake. apply take_drop.
    + by constructor.
Qed.

Section PipelineMore.
Context {Model R S E : Type}.
Context {rec_ops : Recognizer Model R} {audio_io : AudioIO E} {text_lib : TextLib}.
Context {json_reader : JsonReader}.
Implicit Types (self : Sharetape Model S) (w : world S E).

Lemma progress_fed self desc current total u w :
  fed_chunks (trace (snd (_progress self desc current total u w)))
  = fed_chunks (trace w).
Proof. apply keeps_fed_progress. Qed.

(** A loop that returns has fed each read, followed by one empty buffer. *)
Lemma loop_fed fuel self T wf rec p results w out v :
  transcribe_loop fuel self T wf rec p results w = out ->
  fst out = Ok v ->
  fed_chunks (trace (snd out))
  = fed_chunks (trace w)
    ++ flat_map (fun c => [c; []])
         (chunked_aux fuel (chunk_frames * (sampwidth wf * nchannels wf)) (frames wf)).
Proof.
  revert wf rec p results w out.
  induction fuel as [| fuel IH]; intros wf rec p results w out Hout Hok.
  { subst out. discriminate. }
  cbn [transcribe_loop readframes sampwidth nchannels frames] in Hout.
  cbn [chunked_aux].
  destruct (take _ (frames wf)) as [| b data] eqn:Hdata.
  { subst out. simpl. by rewrite app_nil_r. }
  unfold bind at 1 in Hout. unfold feed at 1 in Hout.
  destruct (AcceptWaveform (b :: data) rec) as [seg0 rec1].
  unfold bind at 1 in Hout. unfold py_floordiv in Hout.
  destruct (sampwidth wf * nchannels wf =? 0); [subst out; discriminate |].
  unfold ret at 1 in Hout.
  set (p' := Nat.min _ T) in Hout.
  set (w1 := emit (EvFeed (b :: data)) w) in Hout.
  unfold bind at 1 in Hout.
  pose proof (progress_fed self "Transcribing" p' T "frames" w1) as Hfed.
  destruct (_progress self "Transcribing" p' T "frames" w1) as [r w2].
  simpl in Hfed.
  destruct r as [[] | e |]; [| subst out; discriminate | subst out; discriminate].
  unfold bind at 1 in Hout. unfold feed at 1 in Hout.
  destruct (AcceptWaveform [] rec1) as [seg rec2].
  set (wf' := mkWave _ _ _ _ _ _) in Hout.
  set (w3 := emit (EvFeed []) w2) in Hout.
  assert (Hw3 : fed_chunks (trace w3) = fed_chunks (trace w) ++ [b :: data; []]).
  { subst w3 w1. simpl. unfold fed_chunks in *. rewrite omap_app, Hfed.
    simpl. rewrite omap_app. simpl. by rewrite <- app_assoc. }
  assert (Hrec : forall rec' results',
    transcribe_loop fuel self T wf' rec' p' results' w3 = out ->
    fed_chunks (trace (snd out))
    = fed_chunks (trace w)
      ++ flat_map (fun c => [c; []])
           ((b :: data)
            :: chunked_aux fuel (chunk_frames * (sampwidth wf * nchannels wf))
                 (drop (chunk_frames * (sampwidth wf * nchannels wf)) (frames wf)))).
  { intros rec' results' Hrun. rewrite (IH wf' rec' p' results' w3 out Hrun Hok), Hw3.
    subst wf'. simpl. by rewrite <- app_assoc. }
  destruct seg; [destruct (Result rec2) as [r rec3] |]; by eapply Hrec.
Qed.

Lemma speech_fed self wf w out v :
  bad_format wf = false ->
  speech_2_text self wf w = out ->
  fst out = Ok v ->
  fed_chunks (trace (snd out))
  = fed_chunks (trace w)
    ++ flat_map (fun c => [c; []]) (chunked (chunk_frames * 2) (frames wf)).
Proof.
  intros Hfmt Hout Hok. destruct (bad_format_false wf Hfmt) as (Hch & Hsw & _).
  unfold speech_2_text in Hout. rewrite Hfmt in Hout.
  set (rec0 := SetPartialWords _ _) in Hout.
  unfold bind at 1 in Hout.
  pose proof (progress_fed self "Transcribing" 0 (nframes wf) "frames" w) as H0.
  destruct (_progress self "Transcribing" 0 (nframes wf) "frames" w) as [r0 w1].
  simpl in H0.
  destruct r0 as [[] | e |]; [| subst out; discriminate | subst out; discriminate].
  unfold bind at 1 in Hout.
  pose proof (fun out v =>
                loop_fed (Datatypes.S (length (frames wf))) self (nframes wf)
                  wf rec0 0 [] w1 out v) as Hloop.
  destruct (transcribe_loop _ self (nframes wf) wf rec0 0 [] w1) as [r1 w2].
  destruct r1 as [[rec1 results] | e |];
    [| subst out; discriminate | subst out; discriminate].
  specialize (Hloop _ (rec1, results) eq_refl eq_refl). simpl in Hloop.
  destruct (FinalResult rec1) as [final rec2].
  unfold bind at 1 in Hout.
  pose proof (progress_fed self "Transcribing" (nframes wf) (nframes wf)
                "frames" w2) as H2.
  destruct (_progress self "Transcribing" (nframes wf) (nframes wf) "frames" w2)
    as [r2 w3].
  simpl in H2.
  destruct r2 as [[] | e |]; [| subst out; discriminate | subst out; discriminate].
  unfold bind, lift in Hout. rewrite assemble_ok in Hout. unfold ret in Hout.
  subst out. simpl.
  rewrite H2, Hloop, H0, Hsw, Hch. change (2 * 1) with 2. reflexivity.
Qed.

(** X10: a recognition run that returns has given the recognizer the whole
    audio, in order, in reads of at most 4000 frames (8000 bytes), each
    read followed by one empty buffer, and nothing else. *)
Theorem all_audio_is_fed self wf w v :
  bad_format wf = false ->
  fst (speech_2_text self wf w) = Ok v ->
  let reads := chunked (chunk_frames * 2) (frames wf) in
  fed_chunks (trace (snd (speech_2_text self wf w)))
  = fed_chunks (trace w) ++ flat_map (fun c => [c; []]) reads /\
  concat reads = frames wf /\
  Forall (fun c => 1 <= length c <= chunk_frames * 2) reads.
Proof.
  intros Hfmt Hok reads. split; [by eapply speech_fed |].
  apply chunked_aux_concat.
  - apply Nat.mul_pos_pos; [unfold chunk_frames; apply Nat.lt_0_succ | lia].
  - apply Nat.lt_succ_diag_r.
Qed.

End PipelineMore.

Lemma all_audio_is_fed_witness :
  exists v,
    fst (speech_2_text (rec_ops := scripted_recognizer) (text_lib := test_text_lib)
           (tape (Some cb_counting)) mono_stream (test_world mono_stream)) = Ok v /\
    concat (chunked (chunk_frames * 2) (frames mono_stream)) = frames mono_stream.
Proof.
  eexists. split; [vm_compute; reflexivity |].
  eapply (all_audio_is_fed (rec_ops := scripted_recognizer)
            (text_lib := test_text_lib)
            (tape (Some cb_counting)) mono_stream (test_world mono_stream));
    [reflexivity | vm_compute; reflexivity].
Defined.

(** ** The callback as a side channel; what a run writes *)

Section SideChannel.
Context {Model R S E : Type}.
Context {rec_ops : Recognizer Model R} {audio_io : AudioIO E} {text_lib : TextLib}.
Implicit Types (self : Sharetape Model S) (w : world S E).

Lemma same_pipeline_refl w : same_pipeline w w.
Proof. by repeat split. Qed.

Lemma agree_ret {A} (a : A) : agree (S := S) (E := E) (ret a) (ret a).
Proof. by intros w w' Hs. Qed.

Lemma agree_bind {A B} (m m' : M A) (k k' : A -> M B) :
  agree (S := S) (E := E) m m' ->
  (forall a, agree (S := S) (E := E) (k a) (k' a)) ->
  agree (S := S) (E := E) (bind m k) (bind m' k').
Proof.
  intros Hm Hk w w' Hs. unfold bind. destruct (Hm w w' Hs) as [Hf Hs'].
  destruct (m w) as [r w1], (m' w') as [r' w1']. simpl in Hf, Hs'. subst r'.
  destruct r as [a | e |]; [by apply Hk | by split | by split].
Qed.

Lemma agree_lift {A} (r : res A) : agree (S := S) (E := E) (lift r) (lift r).
Proof. by intros w w' Hs. Qed.

Lemma agree_ext_get {A} (f : E -> res A) :
  agree (S := S) (E := E) (ext_get f) (ext_get f).
Proof.
  intros w w' (He & Hf & Hl). unfold ext_get. rewrite He. by repeat split.
Qed.

Lemma agree_ext_do (f : E -> res E) : agree (S := S) (E := E) (ext_do f) (ext_do f).
Proof.
  intros w w' (He & Hf & Hl). unfold ext_do. rewrite He.
  destruct (f (ext w')); simpl; by repeat split.
Qed.

Lemma agree_feed data (rec : R) :
  agree (S := S) (E := E) (feed data rec) (feed data rec).
Proof. intros w w' (He & Hf & Hl). by repeat split. Qed.

Lemma agree_logging_error msg :
  agree (S := S) (E := E) (logging_error msg) (logging_error msg).
Proof. intros w w' (He & Hf & Hl). repeat split; simpl; congruence. Qed.

Lemma agree_write_file path content :
  agree (S := S) (E := E) (write_file path content) (write_file path content).
Proof. intros w w' (He & Hf & Hl). repeat split; simpl; congruence. Qed.

Lemma agree_py_floordiv a b :
  agree (S := S) (E := E) (py_floordiv a b) (py_floordiv a b).
Proof. unfold py_floordiv. destruct (b =? 0); [apply agree_lift | apply agree_ret]. Qed.

Lemma agree_progress self desc current total u :
  quiet_callback self ->
  agree (S := S) (E := E) (_progress self desc current total u)
        (_progress (without_callback self) desc current total u).
Proof.
  intros Hq w w' (He & Hf & Hl).
  rewrite (progress_quiet self desc current total u w Hq).
  destruct (progress_effect self desc current total u w) as (n & s' & -> & _).
  rewrite (progress_no_callback (without_callback self)) by reflexivity.
  by repeat split.
Qed.

Lemma agree_loop self T :
  quiet_callback self ->
  forall fuel wf (rec : R) p results,
    agree (S := S) (E := E) (transcribe_loop fuel self T wf rec p results)
          (transcribe_loop fuel (without_callback self) T wf rec p results).
Proof.
  intros Hq. induction fuel as [| fuel IH]; intros wf rec p results.
  { apply agree_lift. }
  cbn [transcribe_loop readframes sampwidth nchannels frames].
  destruct (take _ (frames wf)) as [| b data]; [apply agree_ret |].
  apply agree_bind; [apply agree_feed | intros [seg0 rec1]].
  apply agree_bind; [apply agree_py_floordiv | intros frames_read].
  apply agree_bind; [by apply agree_progress | intros _].
  apply agree_bind; [apply agree_feed | intros [seg rec2]].
  destruct seg; [destruct (Result rec2) as [r rec3] |]; apply IH.
Qed.

Lemma agree_speech self wf :
  quiet_callback self ->
  agree (S := S) (E := E) (speech_2_text self wf) (speech_2_text (without_callback self) wf).
Proof.
  intros Hq. unfold speech_2_text. destruct (bad_format wf).
  { apply agree_bind; [apply agree_logging_error | intros _; apply agree_ret]. }
  cbn [model without_callback].
  apply agree_bind; [by apply agree_progress | intros _].
  apply agree_bind; [by apply agree_loop | intros [rec1 results]].
  destruct (FinalResult rec1) as [final rec2].
  apply agree_bind; [by apply agree_progress | intros _].
  apply agree_bind; [apply agree_lift | intros st; apply agree_ret].
Qed.

Lemma agree_convert self :
  quiet_callback self ->
  agree (S := S) (E := E) (convert_to_mono self) (convert_to_mono (without_callback self)).
Proof.
  intros Hq. unfold convert_to_mono. cbn [audio mono_audio without_callback].
  apply agree_bind; [by apply agree_progress | intros _].
  apply agree_bind; [apply agree_ext_get | intros [rate data]].
  apply agree_bind; [apply agree_lift | intros mono].
  apply agree_bind; [apply agree_ext_do | intros _].
  by apply agree_progress.
Qed.

Lemma agree_handle self :
  quiet_callback self ->
  agree (S := S) (E := E) (handle_speech_2_text self) (handle_speech_2_text (without_callback self)).
Proof.
  intros Hq. unfold handle_speech_2_text.
  apply agree_bind; [by apply agree_convert | intros _].
  cbn [mono_audio without_callback].
  apply agree_bind; [apply agree_ext_get | intros wf]. by apply agree_speech.
Qed.

Lemma agree_extract_audio self :
  quiet_callback self ->
  agree (S := S) (E := E) (extract_audio self) (extract_audio (without_callback self)).
Proof.
  intros Hq. unfold extract_audio. cbn [video audio without_callback].
  destruct (decide (video self = "")); [apply agree_ret |].
  apply agree_bind; [by apply agree_progress | intros _].
  apply agree_bind; [apply agree_ext_get | intros has_audio].
  apply agree_bind; [| intros _; by apply agree_progress].
  destruct has_audio; [apply agree_ext_do | apply agree_ret].
Qed.

Lemma agree_persist self outputs :
  agree (S := S) (E := E) (persist self outputs) (persist (without_callback self) outputs).
Proof.
  destruct outputs as [[t ws] sub]. unfold persist, save_data.
  cbn [transcript words subtitles without_callback].
  apply agree_bind; [apply agree_write_file | intros _].
  apply agree_bind; [apply agree_write_file | intros _].
  apply agree_write_file.
Qed.

Lemma agree_extract_transcript self :
  quiet_callback self ->
  agree (S := S) (E := E) (extract_transcript self) (extract_transcript (without_callback self)).
Proof.
  intros Hq. unfold extract_transcript.
  apply agree_bind; [by apply agree_extract_audio | intros _].
  apply agree_bind; [by apply agree_handle | intros outputs].
  apply agree_persist.
Qed.

(** X11: a callback that always returns is a pure side channel: the run
    gives the same outcome, the same returned triple, the same files, audio
    store and error log as the run without any callback. *)
Theorem callback_is_side_channel self w :
  quiet_callback self ->
  fst (handle_speech_2_text self w)
  = fst (handle_speech_2_text (without_callback self) w) /\
  fst (extract_transcript self w)
  = fst (extract_transcript (without_callback self) w) /\
  files (snd (extract_transcript self w))
  = files (snd (extract_transcript (without_callback self) w)) /\
  ext (snd (extract_transcript self w))
  = ext (snd (extract_transcript (without_callback self) w)) /\
  errlog (snd (extract_transcript self w))
  = errlog (snd (extract_transcript (without_callback self) w)).
Proof.
  intros Hq.
  destruct (agree_handle self Hq w w (same_pipeline_refl w)) as [Hh _].
  destruct (agree_extract_transcript self Hq w w (same_pipeline_refl w))
    as [Hr (He & Hf & Hl)].
  by repeat split.
Qed.

End SideChannel.

Lemma callback_is_side_channel_witness :
  fst (extract_transcript (rec_ops := scripted_recognizer)
         (audio_io := test_audio_io) (text_lib := test_text_lib)
         (tape (Some cb_counting)) (test_world mono_stream))
  = fst (extract_transcript (rec_ops := scripted_recognizer)
           (audio_io := test_audio_io) (text_lib := test_text_lib)
           (without_callback (tape (Some cb_counting))) (test_world mono_stream)).
Proof.
  assert (Hq : quiet_callback (tape (Some cb_counting))).
  { intros a s. reflexivity. }
  exact (proj1 (proj2 (callback_is_side_channel (rec_ops := scripted_recognizer)
                         (audio_io := test_audio_io) (text_lib := test_text_lib)
                         (tape (Some cb_counting)) (test_world mono_stream) Hq))).
Defined.

Section Artifacts.
Context {Model R S E : Type}.
Context {rec_ops : Recognizer Model R} {audio_io : AudioIO E} {text_lib : TextLib}.
Implicit Types (self : Sharetape Model S) (w : world S E).

Lemma keeps_files_ret {A} (a : A) : keeps_files (S := S) (E := E) (ret a).
Proof. by intros w. Qed.

Lemma keeps_files_bind {A B} (m : M A) (k : A -> M B) :
  keeps_files (S := S) (E := E) m ->
  (forall a, keeps_files (S := S) (E := E) (k a)) ->
  keeps_files (S := S) (E := E) (bind m k).
Proof.
  intros Hm Hk w. unfold bind. specialize (Hm w).
  destruct (m w) as [[a | e |] w']; simpl in *; [| done | done].
  by rewrite Hk.
Qed.

Lemma keeps_files_progress self desc current total u :
  keeps_files (S := S) (E := E) (_progress self desc current total u).
Proof.
  intros w. by destruct (progress_effect self desc current total u w)
    as (n & s' & -> & _).
Qed.

Lemma keeps_files_lift {A} (r : res A) : keeps_files (S := S) (E := E) (lift r).
Proof. by intros w. Qed.

Lemma keeps_files_ext_get {A} (f : E -> res A) :
  keeps_files (S := S) (E := E) (ext_get f).
Proof. by intros w. Qed.

Lemma keeps_files_ext_do (f : E -> res E) : keeps_files (S := S) (E := E) (ext_do f).
Proof. intros w. unfold ext_do. by destruct (f (ext w)). Qed.

Lemma keeps_files_feed data (rec : R) :
  keeps_files (S := S) (E := E) (feed data rec).
Proof. by intros w. Qed.

Lemma keeps_files_logging_error msg :
  keeps_files (S := S) (E := E) (logging_error msg).
Proof. by intros w. Qed.

Lemma keeps_files_py_floordiv a b :
  keeps_files (S := S) (E := E) (py_floordiv a b).
Proof.
  unfold py_floordiv. destruct (b =? 0); [apply keeps_files_lift | apply keeps_files_ret].
Qed.

Lemma keeps_files_loop self T fuel :
  forall wf (rec : R) p results,
    keeps_files (S := S) (E := E) (transcribe_loop fuel self T wf rec p results).
Proof.
  induction fuel as [| fuel IH]; intros wf rec p results.
  { apply keeps_files_lift. }
  cbn [transcribe_loop readframes sampwidth nchannels frames].
  destruct (take _ (frames wf)) as [| b data]; [apply keeps_files_ret |].
  apply keeps_files_bind; [apply keeps_files_feed | intros [seg0 rec1]].
  apply keeps_files_bind; [apply keeps_files_py_floordiv | intros frames_read].
  apply keeps_files_bind; [apply keeps_files_progress | intros _].
  apply keeps_files_bind; [apply keeps_files_feed | intros [seg rec2]].
  destruct seg; [destruct (Result rec2) as [r rec3] |]; apply IH.
Qed.

Lemma keeps_files_speech self wf : keeps_files (S := S) (E := E) (speech_2_text self wf).
Proof.
  unfold speech_2_text. destruct (bad_format wf).
  { apply keeps_files_bind; [apply keeps_files_logging_error |].
    intros _. apply keeps_files_ret. }
  apply keeps_files_bind; [apply keeps_files_progress | intros _].
  apply keeps_files_bind; [apply keeps_files_loop | intros [rec1 results]].
  destruct (FinalResult rec1) as [final rec2].
  apply keeps_files_bind; [apply keeps_files_progress | intros _].
  apply keeps_files_bind; [apply keeps_files_lift | intros st; apply keeps_files_ret].
Qed.

Lemma keeps_files_convert self : keeps_files (S := S) (E := E) (convert_to_mono self).
Proof.
  unfold convert_to_mono.
  apply keeps_files_bind; [apply keeps_files_progress | intros _].
  apply keeps_files_bind; [apply keeps_files_ext_get | intros [rate data]].
  apply keeps_files_bind; [apply keeps_files_lift | intros mono].
  apply keeps_files_bind; [apply keeps_files_ext_do | intros _].
  apply keeps_files_progress.
Qed.

Lemma keeps_files_handle self : keeps_files (S := S) (E := E) (handle_speech_2_text self).
Proof.
  unfold handle_speech_2_text.
  apply keeps_files_bind; [apply keeps_files_convert | intros _].
  apply keeps_files_bind; [apply keeps_files_ext_get | intros wf].
  apply keeps_files_speech.
Qed.

Lemma keeps_files_extract_audio self : keeps_files (S := S) (E := E) (extract_audio self).
Proof.
  unfold extract_audio. destruct (decide (video self = "")); [apply keeps_files_ret |].
  apply keeps_files_bind; [apply keeps_files_progress | intros _].
  apply keeps_files_bind; [apply keeps_files_ext_get | intros has_audio].
  apply keeps_files_bind; [| intros _; apply keeps_files_progress].
  destruct has_audio; [apply keeps_files_ext_do | apply keeps_files_ret].
Qed.

Lemma persist_writes self t ws sub w :
  persist self (t, ws, sub) w
  = (Ok tt,
     mkWorld (sink w) (ext w)
       (<[subtitles self := sub]>
          (<[words self := json_dumps ws]> (<[transcript self := t]> (files w))))
       (errlog w) (trace w)).
Proof. reflexivity. Qed.

(** The run, split at the return of [handle_speech_2_text]. *)
Lemma extract_transcript_cases self w :
  (exists t ws sub wh,
     handle_speech_2_text self (snd (extract_audio self w)) = (Ok (t, ws, sub), wh) /\
     fst (extract_audio self w) = Ok tt /\
     fst (extract_transcript self w) = Ok tt /\
     files (snd (extract_transcript self w))
     = <[subtitles self := sub]>
         (<[words self := json_dumps ws]> (<[transcript self := t]> (files w)))) \/
  (fst (extract_transcript self w) <> Ok tt /\
   files (snd (extract_transcript self w)) = files w).
Proof.
  unfold extract_transcript, bind.
  pose proof (keeps_files_extract_audio self w) as Ha.
  destruct (extract_audio self w) as [ra wa]. simpl in Ha.
  destruct ra as [[] | e |]; [| right; by split | right; by split].
  pose proof (keeps_files_handle self wa) as Hh. simpl.
  destruct (handle_speech_2_text self wa) as [rh wh]. simpl in Hh.
  destruct rh as [[[t ws] sub] | e |];
    [| right; split; [done | simpl; congruence] ..].
  left. exists t, ws, sub, wh. rewrite persist_writes. simpl.
  repeat split. congruence.
Qed.

(** X12: the three files are written at the very end only: when the run
    does not return normally (an exception of the audio libraries, of the
    conversion, of the callback), no text file is created or changed. *)
Theorem no_artifact_on_failure self w :
  fst (extract_transcript self w) <> Ok tt ->
  files (snd (extract_transcript self w)) = files w.
Proof.
  intros Hfail. destruct (extract_transcript_cases self w)
    as [(t & ws & sub & wh & _ & _ & Hok & _) | [_ Hfiles]]; [done | exact Hfiles].
Qed.

(** X13: when the run returns normally, the files are those before the
    run with the transcript, the [json.dump] of the word data and the
    subtitle text written, in this order, at the three paths: a path other
    than these three is untouched, and the subtitle path holds the subtitle
    text. *)
Theorem artifacts_on_success self w :
  fst (extract_transcript self w) = Ok tt ->
  exists t ws sub wh,
    handle_speech_2_text self (snd (extract_audio self w)) = (Ok (t, ws, sub), wh) /\
    files (snd (extract_transcript self w))
    = <[subtitles self := sub]>
        (<[words self := json_dumps ws]> (<[transcript self := t]> (files w))) /\
    files (snd (extract_transcript self w)) !! subtitles self = Some sub /\
    (forall path,
       path <> transcript self -> path <> words self -> path <> subtitles self ->
       files (snd (extract_transcript self w)) !! path = files w !! path).
Proof.
  intros Hok. destruct (extract_transcript_cases self w)
    as [(t & ws & sub & wh & Hh & _ & _ & Hfiles) | [Hfail _]]; [| done].
  exists t, ws, sub, wh. split; [exact Hh |]. split; [exact Hfiles |].
  rewrite Hfiles. split; [by rewrite lookup_insert_eq |].
  intros path H1 H2 H3. by rewrite !lookup_insert_ne.
Qed.

Lemma progress_quiet_ext self desc current total u w :
  quiet_callback self ->
  exists w',
    _progress self desc current total u w = (Ok tt, w') /\ ext w' = ext w.
Proof.
  intros Hq.
  pose proof (progress_quiet self desc current total u w Hq) as Hok.
  destruct (progress_effect self desc current total u w) as (n & s' & Hw & _).
  destruct (_progress self desc current total u w) as [r w'].
  simpl in Hok, Hw. subst r w'. eexists. split; [reflexivity | reflexivity].
Qed.

(** X14: a video without audio track is not an error: no audio file is
    written, the audio store is left as it is, and the step returns. *)
Theorem video_without_audio self w :
  video self <> "" ->
  VideoFileClip (video self) (ext w) = Ok false ->
  quiet_callback self ->
  fst (extract_audio self w) = Ok tt /\
  ext (snd (extract_audio self w)) = ext w.
Proof.
  intros Hv Hclip Hq.
  assert (Hrun : exists w', extract_audio self w = (Ok tt, w') /\ ext w' = ext w).
  { unfold extract_audio.
    destruct (decide (video self = "")); [done |].
    unfold bind at 1.
    destruct (progress_quiet_ext self "Extracting audio" 0 1 "steps" w Hq)
      as (w1 & -> & He1).
    unfold bind at 1. unfold ext_get. rewrite He1, Hclip.
    unfold bind at 1. unfold ret at 1.
    destruct (progress_quiet_ext self "Extracting audio" 1 1 "steps" w1 Hq)
      as (w2 & -> & He2).
    exists w2. split; [reflexivity | congruence]. }
  destruct Hrun as (w' & -> & He). by split.
Qed.

End Artifacts.

Lemma no_artifact_on_failure_witness :
  files (snd (extract_transcript (rec_ops := scripted_recognizer)
                (audio_io := test_audio_io) (text_lib := test_text_lib)
                (tape (Some cb_raising)) (test_world mono_stream)))
  = files (test_world mono_stream).
Proof.
  apply (no_artifact_on_failure (rec_ops := scripted_recognizer)
           (audio_io := test_audio_io) (text_lib := test_text_lib)).
  vm_compute. discriminate.
Defined.

Lemma artifacts_on_success_witness :
  exists sub,
    files (snd (extract_transcript (rec_ops := scripted_recognizer)
                  (audio_io := test_audio_io) (text_lib := test_text_lib)
                  (tape (Some cb_counting)) (test_world mono_stream)))
      !! subtitles (tape (Some cb_counting)) = Some sub.
Proof.
  destruct (artifacts_on_success (rec_ops := scripted_recognizer)
              (audio_io := test_audio_io) (text_lib := test_text_lib)
              (tape (Some cb_counting)) (test_world mono_stream))
    as (t & ws & sub & wh & _ & _ & Hsub & _).
  { vm_compute. reflexivity. }
  exists sub. exact Hsub.
Defined.

Lemma video_without_audio_witness :
  fst (extract_audio (audio_io := silent_video_io)
         (video_tape None) (test_world mono_stream)) = Ok tt /\
  ext (snd (extract_audio (audio_io := silent_video_io)
              (video_tape None) (test_world mono_stream)))
  = ext (test_world mono_stream).
Proof.
  apply (video_without_audio (audio_io := silent_video_io)
           (video_tape None) (test_world mono_stream)).
  - simpl. discriminate.
  - reflexivity.
  - exact I.
Defined.

(** ** The word-data cache *)

Section CacheFacts.
Context {Model R S E : Type}.
Context {rec_ops : Recognizer Model R} {audio_io : AudioIO E} {text_lib : TextLib}.
Context {json_reader : JsonReader}.
Implicit Types (self : Sharetape Model S) (w : world S E).

(** X15: [load_data] never raises and changes nothing: a missing file and
    a file [json.load] rejects both give the empty list. *)
Theorem load_data_never_raises self w :
  snd (load_data self w) = w /\
  (forall e, fst (load_data self w) <> Raise e) /\
  (files w !! words self = None ->
   fst (load_data self w) = Ok (JWords (WList []))) /\
  (forall content e,
     files w !! words self = Some content ->
     json_load content = Raise e ->
     fst (load_data self w) = Ok (JWords (WList []))).
Proof.
  unfold load_data, except_Exception, bind, read_file, lift, ret.
  destruct (files w !! words self) as [content |]; simpl.
  - destruct (json_load content) as [v | e |] eqn:Hj; simpl;
      repeat split; try discriminate; try done.
    + intros c e' [= <-]. congruence.
    + intros c e' [= <-]. congruence.
  - repeat split; try discriminate; try done.
Qed.

Lemma load_after_save self v w :
  json_load (json_dumps v) = Ok (JWords v) ->
  fst (load_data self (snd (save_data self v w))) = Ok (JWords v).
Proof.
  intros Hinv. unfold load_data, except_Exception, bind, read_file, lift.
  unfold save_data, write_file. simpl. rewrite lookup_insert_eq. simpl.
  by rewrite Hinv.
Qed.

(** X16: what [save_data] wrote, [load_data] returns, whatever the file
    held before, provided [json.load] reads back the text [json.dump]
    produced for the value. *)
Theorem save_then_load self v w :
  json_load (json_dumps v) = Ok (JWords v) ->
  fst (load_data self (snd (save_data self v w))) = Ok (JWords v) /\
  fst (save_data self v w) = Ok tt.
Proof. intros Hinv. split; [by apply load_after_save | reflexivity]. Qed.

(** X17: after a run that returned normally, with the word-data path
    distinct from the subtitle path, [load_data] returns the word data the
    run computed (under the same condition on [json.load]). *)
Theorem run_then_load self w t ws sub wh :
  handle_speech_2_text self (snd (extract_audio self w)) = (Ok (t, ws, sub), wh) ->
  fst (extract_transcript self w) = Ok tt ->
  words self <> subtitles self ->
  json_load (json_dumps ws) = Ok (JWords ws) ->
  fst (load_data self (snd (extract_transcript self w))) = Ok (JWords ws).
Proof.
  intros Hh Hok Hpaths Hinv.
  destruct (extract_transcript_cases self w)
    as [(t' & ws' & sub' & wh' & Hh' & _ & _ & Hfiles) | [Hfail _]]; [| done].
  rewrite Hh in Hh'. injection Hh' as <- <- <- <-.
  unfold load_data, except_Exception, bind, read_file, lift.
  rewrite Hfiles. rewrite lookup_insert_ne by done. rewrite lookup_insert_eq.
  simpl. by rewrite Hinv.
Qed.

End CacheFacts.

Lemma load_data_never_raises_witness :
  fst (load_data (json_reader := test_json_reader) (tape None)
         (test_world mono_stream)) = Ok (JWords (WList [])).
Proof.
  apply (load_data_never_raises (json_reader := test_json_reader) (tape None)
           (test_world mono_stream)).
  reflexivity.
Defined.

Lemma save_then_load_witness :
  fst (load_data (json_reader := test_json_reader) (tape None)
         (snd (save_data (text_lib := test_text_lib) (tape None) (WList [])
                 (test_world mono_stream))))
  = Ok (JWords (WList [])).
Proof.
  apply (save_then_load (text_lib := test_text_lib)
           (json_reader := test_json_reader)).
  reflexivity.
Defined.

Lemma run_then_load_witness :
  fst (load_data (json_reader := test_json_reader) silent_tape
         (snd (extract_transcript (rec_ops := scripted_recognizer)
                 (audio_io := test_audio_io) (text_lib := test_text_lib)
                 silent_tape (test_world mono_stream))))
  = Ok (JWords (WList [])).
Proof.
  eapply (run_then_load (rec_ops := scripted_recognizer)
            (audio_io := test_audio_io) (text_lib := test_text_lib)
            (json_reader := test_json_reader) silent_tape (test_world mono_stream)).
  - vm_compute. reflexivity.
  - vm_compute. reflexivity.
  - simpl. discriminate.
  - reflexivity.
Defined.

(** ** [main.py]: the command line, the paths and the progress bars *)

Lemma truthy_true s : truthy s = true <-> s <> "".
Proof.
  unfold truthy. rewrite negb_true_iff. apply String.eqb_neq.
Qed.

Lemma truthy_false s : truthy s = false <-> s = "".
Proof.
  unfold truthy. rewrite negb_false_iff. apply String.eqb_eq.
Qed.

Lemma string_app_inv_head (s a b : string) : s +:+ a = s +:+ b -> a = b.
Proof.
  induction s as [| c s IH]; [done |].
  intros H. injection H as H. by apply IH.
Qed.

(** X18: [main] goes on only when exactly one of [--video] and [--audio]
    is given.  With [--audio] the object has no video and reads that file;
    with [--video] it extracts to [audio.wav] in the run directory. *)
Theorem main_requires_one_input {Model} (args : cli_args) (video_id : string)
    (m : Model) :
  (main_tape args video_id m = Raise (Exception "SystemExit") <->
   (arg_video args = "" /\ arg_audio args = "") \/
   (arg_video args <> "" /\ arg_audio args <> "")) /\
  (forall self,
     main_tape args video_id m = Ok self ->
     progress_cb self = Some make_progress_cb /\
     ((arg_audio args <> "" /\ video self = "" /\ audio self = arg_audio args) \/
      (arg_audio args = "" /\ video self <> "" /\ video self = arg_video args /\
       audio self = video_id +:+ "/audio.wav"))).
Proof.
  unfold main_tape.
  destruct (truthy (arg_video args)) eqn:Hv, (truthy (arg_audio args)) eqn:Ha;
    simpl.
  - apply truthy_true in Hv, Ha. split; [| discriminate].
    split; [intros _; right; by split | done].
  - apply truthy_true in Hv. apply truthy_false in Ha. split.
    + split; [discriminate |]. intros [[? _] | [_ ?]]; done.
    + intros self [= <-]. split; [reflexivity |]. right. simpl.
      destruct (decide (arg_audio args = "")); done.
  - apply truthy_false in Hv. apply truthy_true in Ha. split.
    + split; [discriminate |]. intros [[_ ?] | [? _]]; done.
    + intros self [= <-]. split; [reflexivity |]. left. simpl.
      destruct (decide (arg_audio args = "")); done.
  - apply truthy_false in Hv, Ha. split; [| discriminate].
    split; [intros _; left; by split | done].
Qed.

Lemma main_requires_one_input_witness :
  exists self : Sharetape (list jres) progress_bars,
    main_tape audio_cli "run" scenario = Ok self /\
    video self = "" /\ audio self = "speech.wav".
Proof.
  eexists. split; [reflexivity |].
  destruct (proj2 (main_requires_one_input audio_cli "run" scenario) _ eq_refl)
    as [_ [(_ & Hv & Ha) | (Hno & _)]]; [by split | discriminate Hno].
Defined.

(** The names [main] gives to the produced files differ pairwise. *)
Lemma main_paths_distinct {Model} (args : cli_args) (video_id : string)
    (m : Model) (self : Sharetape Model progress_bars) :
  main_tape args video_id m = Ok self ->
  transcript self <> words self /\
  transcript self <> subtitles self /\
  words self <> subtitles self /\
  mono_audio self <> transcript self /\
  mono_audio self <> words self /\
  mono_audio self <> subtitles self.
Proof.
  unfold main_tape.
  destruct (negb _); [discriminate |]. destruct (_ && _); [discriminate |].
  intros [= <-]. simpl.
  repeat split; intros H; apply string_app_inv_head in H; discriminate H.
Qed.

Section MainRun.
Context {Model R E : Type}.
Context {rec_ops : Recognizer Model R} {audio_io : AudioIO E} {text_lib : TextLib}.
Implicit Types (self : Sharetape Model progress_bars) (w : world progress_bars E).

(** X19: for the object [main] builds, a run that returns normally leaves
    each of the three files with its own artifact: the transcript, the
    [json.dump] of the word data and the subtitle text that
    [handle_speech_2_text] returned; no write overwrites another. *)
Theorem main_run_artifacts (args : cli_args) (video_id : string) (m : Model)
    self w :
  main_tape args video_id m = Ok self ->
  fst (extract_transcript self w) = Ok tt ->
  exists t ws sub wh,
    handle_speech_2_text self (snd (extract_audio self w)) = (Ok (t, ws, sub), wh) /\
    files (snd (extract_transcript self w)) !! transcript self = Some t /\
    files (snd (extract_transcript self w)) !! words self = Some (json_dumps ws) /\
    files (snd (extract_transcript self w)) !! subtitles self = Some sub.
Proof.
  intros Hmain Hok.
  destruct (main_paths_distinct args video_id m self Hmain)
    as (H1 & H2 & H3 & _).
  destruct (extract_transcript_cases self w)
    as [(t & ws & sub & wh & Hh & _ & _ & Hfiles) | [Hfail _]]; [| done].
  exists t, ws, sub, wh. split; [exact Hh |]. rewrite Hfiles.
  split; [| split].
  - rewrite !lookup_insert_ne by done. by rewrite lookup_insert_eq.
  - rewrite lookup_insert_ne by done. by rewrite lookup_insert_eq.
  - by rewrite lookup_insert_eq.
Qed.

End MainRun.

Lemma main_run_artifacts_witness :
  exists (self : Sharetape (list jres) progress_bars) sub,
    main_tape audio_cli "run" scenario = Ok self /\
    files (snd (extract_transcript (rec_ops := scripted_recognizer)
                  (audio_io := test_audio_io) (text_lib := test_text_lib)
                  self (bars_world mono_stream)))
      !! "run/captions.srt" = Some sub.
Proof.
  eexists. 
  destruct (main_run_artifacts (rec_ops := scripted_recognizer)
              (audio_io := test_audio_io) (text_lib := test_text_lib)
              audio_cli "run" scenario _ (bars_world mono_stream) eq_refl)
    as (t & ws & sub & wh & _ & _ & _ & Hsub).
  { vm_compute. reflexivity. }
  exists sub. split; [reflexivity | exact Hsub].
Defined.

Lemma make_progress_cb_returns a s : fst (make_progress_cb a s) = Ok tt.
Proof. unfold make_progress_cb. by destruct (cb_total a <=? cb_current a). Qed.

Lemma make_progress_cb_keeps d a s :
  cb_desc a = d -> bars_only d s -> bars_only d (snd (make_progress_cb a s)).
Proof.
  intros <- Hs d' Hd'. unfold make_progress_cb.
  destruct (cb_total a <=? cb_current a); simpl.
  - rewrite lookup_delete_ne by done. rewrite lookup_insert_ne by done. by apply Hs.
  - rewrite lookup_insert_ne by done. by apply Hs.
Qed.

Lemma make_progress_cb_closes d a s :
  cb_desc a = d -> cb_total a <= cb_current a ->
  bars_only d s -> no_open_bar (snd (make_progress_cb a s)).
Proof.
  intros <- Hdone Hs. unfold make_progress_cb, no_open_bar.
  destruct (Nat.leb_spec (cb_total a) (cb_current a)) as [_ | ?]; [| lia].
  simpl. apply map_eq. intros d'. rewrite lookup_empty.
  destruct (decide (cb_desc a = d')) as [<- | Hne].
  - by rewrite lookup_delete_eq.
  - rewrite lookup_delete_ne by done. rewrite lookup_insert_ne by done.
    apply Hs. congruence.
Qed.

Lemma no_open_bar_only d s : no_open_bar s -> bars_only d s.
Proof. unfold no_open_bar. intros Hs d' _. by rewrite Hs, lookup_empty. Qed.

Section ProgressBars.
Context {Model R E : Type}.
Context {rec_ops : Recognizer Model R} {audio_io : AudioIO E} {text_lib : TextLib}.
Implicit Types (self : Sharetape Model progress_bars) (w : world progress_bars E).

Lemma finishes_bind {A B} (P Q T : progress_bars -> Prop)
    (m : M (E := E) A) (k : A -> M B) :
  finishes (E := E) P Q m -> (forall a, finishes (E := E) Q T (k a)) -> finishes (E := E) P T (bind m k).
Proof.
  intros Hm Hk w b HP. unfold bind. specialize (Hm w).
  destruct (m w) as [[a | e |] w']; simpl in *; [| discriminate | discriminate].
  intros Hok. eapply Hk; [by eapply Hm | exact Hok].
Qed.

Lemma finishes_neutral {A} (P : progress_bars -> Prop) (m : M (E := E) A) :
  (forall w, sink (snd (m w)) = sink w) -> finishes (E := E) P P m.
Proof. intros Hm w a HP _. by rewrite Hm. Qed.

Lemma finishes_weaken {A} (P P' Q Q' : progress_bars -> Prop) (m : M (E := E) A) :
  (forall s, P' s -> P s) -> (forall s, Q s -> Q' s) ->
  finishes (E := E) P Q m -> finishes (E := E) P' Q' m.
Proof. intros HP HQ Hm w a H Hok. eapply HQ, Hm; [by apply HP | exact Hok]. Qed.

Lemma progress_main self desc current total u w :
  progress_cb self = Some make_progress_cb ->
  sink (snd (_progress self desc current total u w))
  = snd (make_progress_cb (mkArgs desc current total (Some u)) (sink w)).
Proof.
  intros Hcb. unfold _progress. rewrite Hcb. unfold except_TypeError, call_cb.
  pose proof (make_progress_cb_returns (mkArgs desc current total (Some u)) (sink w))
    as Hok.
  destruct (make_progress_cb _ (sink w)) as [r s']. simpl in Hok. subst r.
  reflexivity.
Qed.

Lemma finishes_progress_keep self desc current total u :
  progress_cb self = Some make_progress_cb ->
  finishes (E := E) (bars_only desc) (bars_only desc) (_progress self desc current total u).
Proof.
  intros Hcb w a HP _. rewrite progress_main by done.
  by apply make_progress_cb_keeps.
Qed.

Lemma finishes_progress_open self desc current total u :
  progress_cb self = Some make_progress_cb ->
  finishes (E := E) no_open_bar (bars_only desc) (_progress self desc current total u).
Proof.
  intros Hcb. eapply finishes_weaken; [apply (no_open_bar_only desc) | |
                                       by apply finishes_progress_keep].
  done.
Qed.

Lemma finishes_progress_close self desc total u :
  progress_cb self = Some make_progress_cb ->
  finishes (E := E) (bars_only desc) no_open_bar (_progress self desc total total u).
Proof.
  intros Hcb w a HP _. rewrite progress_main by done.
  by apply (make_progress_cb_closes desc).
Qed.

Lemma finishes_loop self T fuel :
  progress_cb self = Some make_progress_cb ->
  forall wf (rec : R) p results,
    finishes (E := E) (bars_only "Transcribing") (bars_only "Transcribing")
             (transcribe_loop fuel self T wf rec p results).
Proof.
  intros Hcb. induction fuel as [| fuel IH]; intros wf rec p results.
  { by apply finishes_neutral. }
  cbn [transcribe_loop readframes sampwidth nchannels frames].
  destruct (take _ (frames wf)) as [| b data]; [by apply finishes_neutral |].
  eapply finishes_bind; [by apply finishes_neutral | intros [seg0 rec1]].
  eapply finishes_bind.
  { apply finishes_neutral. intros w. unfold py_floordiv. by destruct (_ =? 0). }
  intros frames_read.
  eapply finishes_bind; [by apply finishes_progress_keep | intros _].
  eapply finishes_bind; [by apply finishes_neutral | intros [seg rec2]].
  destruct seg; [destruct (Result rec2) as [r rec3] |]; apply IH.
Qed.

Lemma finishes_speech self wf :
  progress_cb self = Some make_progress_cb ->
  finishes (E := E) no_open_bar no_open_bar (speech_2_text self wf).
Proof.
  intros Hcb. unfold speech_2_text. destruct (bad_format wf).
  { eapply finishes_bind; [by apply finishes_neutral | intros _].
    by apply finishes_neutral. }
  eapply finishes_bind; [by apply finishes_progress_open | intros _].
  eapply finishes_bind; [by apply finishes_loop | intros [rec1 results]].
  destruct (FinalResult rec1) as [final rec2].
  eapply finishes_bind; [by apply finishes_progress_close | intros _].
  eapply finishes_bind; [by apply finishes_neutral | intros st].
  by apply finishes_neutral.
Qed.

Lemma finishes_ext_do (P : progress_bars -> Prop) (f : E -> res E) :
  finishes (E := E) P P (ext_do f).
Proof. apply finishes_neutral. intros w. unfold ext_do. by destruct (f (ext w)). Qed.

Lemma finishes_convert self :
  progress_cb self = Some make_progress_cb ->
  finishes (E := E) no_open_bar no_open_bar (convert_to_mono self).
Proof.
  intros Hcb. unfold convert_to_mono.
  eapply finishes_bind; [by apply finishes_progress_open | intros _].
  eapply finishes_bind; [by apply finishes_neutral | intros [rate data]].
  eapply finishes_bind; [by apply finishes_neutral | intros mono].
  eapply finishes_bind; [apply finishes_ext_do | intros _].
  by apply finishes_progress_close.
Qed.

Lemma finishes_extract_audio self :
  progress_cb self = Some make_progress_cb ->
  finishes (E := E) no_open_bar no_open_bar (extract_audio self).
Proof.
  intros Hcb. unfold extract_audio.
  destruct (decide (video self = "")); [by apply finishes_neutral |].
  eapply finishes_bind; [by apply finishes_progress_open | intros _].
  eapply finishes_bind; [by apply finishes_neutral | intros has_audio].
  eapply finishes_bind; [| intros _; by apply finishes_progress_close].
  destruct has_audio; [apply finishes_ext_do | by apply finishes_neutral].
Qed.

Lemma finishes_extract_transcript self :
  progress_cb self = Some make_progress_cb ->
  finishes (E := E) no_open_bar no_open_bar (extract_transcript self).
Proof.
  intros Hcb. unfold extract_transcript.
  eapply finishes_bind; [by apply finishes_extract_audio | intros _].
  eapply finishes_bind.
  { unfold handle_speech_2_text.
    eapply finishes_bind; [by apply finishes_convert | intros _].
    eapply finishes_bind; [by apply finishes_neutral | intros wf].
    by apply finishes_speech. }
  intros [[t ws] sub]. by apply finishes_neutral.
Qed.

(** X20: with the callback of [main], a run that starts with no progress
    bar and returns normally leaves no progress bar open: every stage
    closes the bar it opened. *)
Theorem no_bar_left_open self w :
  progress_cb self = Some make_progress_cb ->
  bars (sink w) = ∅ ->
  fst (extract_transcript self w) = Ok tt ->
  bars (sink (snd (extract_transcript self w))) = ∅.
Proof.
  intros Hcb Hstart Hok.
  exact (finishes_extract_transcript self Hcb w tt Hstart Hok).
Qed.

End ProgressBars.

Lemma no_bar_left_open_witness :
  exists self : Sharetape (list jres) progress_bars,
    main_tape audio_cli "run" scenario = Ok self /\
    bars (sink (snd (extract_transcript (rec_ops := scripted_recognizer)
                       (audio_io := test_audio_io) (text_lib := test_text_lib)
                       self (bars_world mono_stream)))) = ∅.
Proof.
  eexists. split; [reflexivity |].
  apply (no_bar_left_open (rec_ops := scripted_recognizer)
           (audio_io := test_audio_io) (text_lib := test_text_lib)).
  - reflexivity.
  - reflexivity.
  - vm_compute. reflexivity.
Defined.

(** ** The conversion step as a whole *)

Section ConversionStep.
Context {Model S E : Type}.
Context {audio_io : AudioIO E}.
Implicit Types (self : Sharetape Model S) (w : world S E).

(** With a callback that returns, a step whose reader and conversion
    succeed ends as its writer does, the writer being given the converted
    array. *)
Lemma convert_to_mono_outcome self w rate data mono :
  quiet_callback self ->
  wav_read (audio self) (ext w) = Ok (rate, data) ->
  to_mono data = Ok mono ->
  match wav_write (mono_audio self) rate mono (ext w) with
  | Ok e' =>
      fst (convert_to_mono self w) = Ok tt /\
      ext (snd (convert_to_mono self w)) = e'
  | Raise e => fst (convert_to_mono self w) = Raise e
  | OutOfFuel => fst (convert_to_mono self w) = OutOfFuel
  end.
Proof.
  intros Hq Hread Hmono.
  assert (Hrun : exists w1, ext w1 = ext w /\
            convert_to_mono self w
            = bind (ext_do (wav_write (mono_audio self) rate mono))
                   (fun _ => _progress self "Preparing audio" 1 1 "steps") w1).
  { unfold convert_to_mono. unfold bind at 1.
    destruct (progress_quiet_ext self "Preparing audio" 0 1 "steps" w Hq)
      as (w1 & -> & He1).
    exists w1. split; [exact He1 |].
    unfold bind at 1. unfold ext_get. rewrite He1, Hread.
    unfold bind at 1. unfold lift. by rewrite Hmono. }
  destruct Hrun as (w1 & He1 & ->).
  unfold bind, ext_do. rewrite He1.
  destruct (wav_write (mono_audio self) rate mono (ext w)) as [e' | e |];
    [| reflexivity | reflexivity].
  destruct (progress_quiet_ext self "Preparing audio" 1 1 "steps"
              (set_ext e' w1) Hq) as (w2 & -> & He2).
  split; [reflexivity | exact He2].
Qed.

(** C5, amended: the conversion step has no channel-count or sample-width
    check and raises no format error of its own.  A one-axis input of any
    integer sample type is cast to 16 bits, wrapping; an input of two or
    more channels is reduced to the floor mean of its first two channels,
    computed in 32 bits and cast to 16 bits, the other channels being
    ignored.  When the reader returns such an array and the callback
    returns, the step gives exactly this 16 bit mono array to the wave
    writer, and its outcome is the writer's: it returns normally when the
    write succeeds and raises only what the writer raises. *)
Theorem normaliser_has_no_format_check (d : dtype) :
  (forall xs : list Z,
     to_mono (Arr1 d xs) = Ok (Arr1 int16 (map (cast int16) xs))) /\
  (forall (n : nat) (rows : list (list Z)),
     to_mono (Arr2 d (2 + n) rows)
     = Ok (Arr1 int16 (map (fun r => mix_sample (nth 0 r 0%Z) (nth 1 r 0%Z)) rows))) /\
  (forall self w (rate : nat) (xs : list Z),
     quiet_callback self ->
     wav_read (audio self) (ext w) = Ok (rate, Arr1 d xs) ->
     match wav_write (mono_audio self) rate
             (Arr1 int16 (map (cast int16) xs)) (ext w) with
     | Ok e' =>
         fst (convert_to_mono self w) = Ok tt /\
         ext (snd (convert_to_mono self w)) = e'
     | Raise e => fst (convert_to_mono self w) = Raise e
     | OutOfFuel => fst (convert_to_mono self w) = OutOfFuel
     end) /\
  (forall self w (rate n : nat) (rows : list (list Z)),
     quiet_callback self ->
     wav_read (audio self) (ext w) = Ok (rate, Arr2 d (2 + n) rows) ->
     match wav_write (mono_audio self) rate
             (Arr1 int16
                (map (fun r => mix_sample (nth 0 r 0%Z) (nth 1 r 0%Z)) rows))
             (ext w) with
     | Ok e' =>
         fst (convert_to_mono self w) = Ok tt /\
         ext (snd (convert_to_mono self w)) = e'
     | Raise e => fst (convert_to_mono self w) = Raise e
     | OutOfFuel => fst (convert_to_mono self w) = OutOfFuel
     end).
Proof.
  split; [intros xs; apply to_mono_one_axis |].
  split; [intros n rows; apply to_mono_channels |].
  split.
  - intros self w rate xs Hq Hread.
    apply (convert_to_mono_outcome self w rate (Arr1 d xs)); [done | done |].
    apply to_mono_one_axis.
  - intros self w rate n rows Hq Hread.
    apply (convert_to_mono_outcome self w rate (Arr2 d (2 + n) rows));
      [done | done |].
    apply to_mono_channels.
Qed.

End ConversionStep.

(** A three-channel file, no callback: the step returns and the writer has
    received the mean of the first two channels. *)
Lemma normaliser_has_no_format_check_witness :
  fst (convert_to_mono (audio_io := test_audio_io) (tape None) three_channel_world)
  = Ok tt /\
  written (ext (snd (convert_to_mono (audio_io := test_audio_io) (tape None)
                       three_channel_world)))
  = [("mono.wav", 16000, Arr1 int16 [1%Z])].
Proof.
  pose proof (proj2 (proj2 (proj2
                (normaliser_has_no_format_check (audio_io := test_audio_io)
                   (Model := list jres) (S := nat) int16)))
                (tape None) three_channel_world 16000 1 [[1; 2; 3]%Z] I eq_refl)
    as Hstep.
  cbn [wav_write test_audio_io] in Hstep.
  destruct Hstep as [Hok Hext]. split; [exact Hok |]. rewrite Hext. reflexivity.
Defined.
